(** * The code reference resolver of jgdv ([jgdv/structs/code_ref.py])

    A shallow embedding of [JGDVCodeReference]: construction from strings,
    live types and entry points, alias lookup, rendering, mixin bookkeeping,
    and resolution ([try_import]) against a small model of the Python
    runtime (module table, object heap, linearisation of the mro). *)

From Stdlib Require Import String Ascii List Bool Arith Lia.
From stdpp Require Import base option list sorting gmap strings.

Import ListNotations.
Local Open Scope list_scope.

Set Warnings "-register-all".

(** ** Python strings *)

Module PyStr.

(** [sub in s] for two strings. *)
Fixpoint contains (sub s : string) : bool :=
  String.prefix sub s ||
  match s with
  | EmptyString => false
  | String _ s' => contains sub s'
  end.

(** [s.split(sep)] for a separator of one character, which is how the
    source calls it ([":"] and ["."]).  The result is never empty. *)
Fixpoint split (sep : ascii) (s : string) : list string :=
  match s with
  | EmptyString => [EmptyString]
  | String c s' =>
      if Ascii.eqb c sep then EmptyString :: split sep s'
      else match split sep s' with
           | [] => [String c EmptyString]
           | p :: ps => String c p :: ps
           end
  end.

(** [sep.join(parts)] *)
Definition join (sep : string) (parts : list string) : string :=
  String.concat sep parts.

(** Number of occurrences of a character. *)
Fixpoint count (c : ascii) (s : string) : nat :=
  match s with
  | EmptyString => 0
  | String a s' => (if Ascii.eqb a c then 1 else 0) + count c s'
  end.

Definition char (c : ascii) : string := String c EmptyString.

End PyStr.

(** ** Data model *)

(** Identity of a Python object ([id(x)]): its index in the heap. *)
Definition oid := nat.

(** [@dataclass(eq=False, slots=True) class JGDVCodeReference(StructuredName)]:
    [head] and [tail] are the inherited path segments, [separator] and
    [subseparator] the strings used for rendering, [_mixins] the
    references composed in at resolution, [_type] the live object given
    at construction, if any. *)
Inductive JGDVCodeReference : Type :=
  MkRef {
    head : list string;
    tail : list string;
    separator : string;
    subseparator : string;
    _mixins : list JGDVCodeReference;
    _type : option oid
  }.

(** [importlib.metadata.EntryPoint] *)
Record EntryPoint := MkEntryPoint {
  ep_name : string;
  ep_value : string;
  ep_group : string
}.

(** The values the methods are called with. *)
Inductive pyval :=
| VStr (s : string)
| VObj (o : oid)
| VEntryPoint (e : EntryPoint)
| VRef (r : JGDVCodeReference)
| VNone.

(** Exceptions, with the arguments the source gives them. *)
Inductive exn :=
| DootError (msg : string)
| DootConfigError (msg : string) (name : string)
| NameError (name : string)
| TypeError (msg : string) (args : list pyval)
| ValueError (msg : string)
| KeyError (key : string)
| ModuleNotFoundError (name : string)
| AttributeError (o : oid) (attr : string)
| ImportError (msg : string) (args : list pyval).

Inductive result (A : Type) :=
| Ok (a : A)
| Raise (e : exn).
Arguments Ok {A} a.
Arguments Raise {A} e.

Definition rbind {A B} (x : result A) (f : A -> result B) : result B :=
  match x with
  | Ok a => f a
  | Raise e => Raise e
  end.

(** Modelled from the spec: the constant [doot.constants.patterns.TASK_SEP]
    is not in the sources; the spec calls it the reserved double-separator
    token, and the source's message says "a single colon, not double". *)
Definition TASK_SEP : string := "::".

(** Modelled from the spec: the constant [doot.constants.patterns.IMPORT_SEP]
    is not in the sources; it is the single colon of the spec's input
    grammar [[<dotted-module-path>:]<dotted-attribute-path>]. *)
Definition IMPORT_SEP : string := ":".

(** What the positional arguments of the constructor can be at the call
    sites of this file: [None], a string, or a list of strings. *)
Inductive ctor_arg :=
| ArgNone
| ArgStr (s : string)
| ArgList (l : list string).

(** Modelled from the spec: the constructor of [StructuredName] is not in
    the sources.  The spec has [head] and [tail] as sequences of strings,
    an absent module path as the empty sequence, and a whole string as the
    attribute path (or the declared module as the module path): a string
    is kept as one segment, a list as it is. *)
Definition segments (a : ctor_arg) : list string :=
  match a with
  | ArgNone => []
  | ArgStr s => [s]
  | ArgList l => l
  end.

(** [JGDVCodeReference(head, tail, _mixins=..., _type=...)]; [separator]
    takes its default [IMPORT_SEP], and [subseparator] the dot the spec
    renders the paths with. *)
Definition new_ref (h t : ctor_arg) (mixins : list JGDVCodeReference)
    (ty : option oid) : JGDVCodeReference :=
  MkRef (segments h) (segments t) IMPORT_SEP "." mixins ty.

(** The [module] and [value] properties and [__str__]. *)
Definition module (self : JGDVCodeReference) : string :=
  PyStr.join (subseparator self) (head self).

Definition value (self : JGDVCodeReference) : string :=
  PyStr.join (subseparator self) (tail self).

Definition str (self : JGDVCodeReference) : string :=
  module self +:+ separator self +:+ value self.

(** Modelled from the spec: [__eq__] is inherited from [StructuredName],
    which is not in the sources; equality is over the rendered string. *)
Definition ref_eqb (a b : JGDVCodeReference) : bool :=
  String.eqb (str a) (str b).

(** [ref in lst] *)
Definition ref_in (r : JGDVCodeReference) (l : list JGDVCodeReference) : bool :=
  existsb (ref_eqb r) l.

(** ** Construction from a string *)

Definition _from_str (name : string) : result JGDVCodeReference :=
  if PyStr.contains TASK_SEP name then
    Raise (DootError "Code References should use a single colon, not double")
  else if PyStr.contains ":" name then
    match PyStr.split ":" name with
    | [groupHead_r; taskHead_r] =>
        Ok (new_ref (ArgList (PyStr.split "." groupHead_r))
                    (ArgList (PyStr.split "." taskHead_r)) [] None)
    | _ =>
        Raise (DootConfigError
          "Code ref can't be split correctly, ensure its of the form x.y.z:ClassName"
          name)
    end
  else
    Ok (new_ref ArgNone (ArgStr name) [] None).

(** ** Aliases *)

(** A record of the plugins table: [.name] and [.value]. *)
Record plugin := MkPlugin {
  pl_name : string;
  pl_value : string
}.

(** The plugins table ([TomlGuard]): group name to records. *)
Abbreviation plugins_t := (gmap string (list plugin)).

Definition from_alias (alias group : string) (plugins : plugins_t)
    : result JGDVCodeReference :=
  match plugins !! group with
  | None => _from_str alias
  | Some recs =>
      match filter (fun x => pl_name x = alias) recs with
      | x :: _ => _from_str (pl_value x)
      | [] => _from_str alias
      end
  end.

(** ** The Python runtime the resolver runs against *)

Inductive kind := KModule | KClass | KFunction | KInstance.

(** A heap object: [__name__], [__module__], its own [__dict__], and for a
    class its [__bases__] and [mro()]; [ob_class] is [type(x)]. *)
Record obj := MkObj {
  ob_kind : kind;
  ob_name : option string;
  ob_module : option string;
  ob_dict : gmap string oid;
  ob_bases : list oid;
  ob_mro : list oid;
  ob_class : oid
}.

(** The interpreter state: the heap, the modules the import system can
    find, [sys.modules], the module bodies executed so far, and the calls
    of [importlib.import_module] made so far. *)
Record world := MkWorld {
  heap : list obj;
  finder : gmap string oid;
  sys_modules : gmap string oid;
  executed : list string;
  import_calls : list string
}.

(** State and exceptions: a raised exception keeps the state reached. *)
Definition M (A : Type) : Type := world -> result A * world.

Definition ret {A} (a : A) : M A := fun w => (Ok a, w).
Definition raise {A} (e : exn) : M A := fun w => (Raise e, w).
Definition bind {A B} (m : M A) (f : A -> M B) : M B :=
  fun w => match m w with
           | (Ok a, w') => f a w'
           | (Raise e, w') => (Raise e, w')
           end.
(** A fallible computation that only reads the state. *)
Definition reading {A} (f : world -> result A) : M A := fun w => (f w, w).
(** [try: body except ...: handler] *)
Definition try_except {A} (body : M A) (handler : exn -> M A) : M A :=
  fun w => match body w with
           | (Ok a, w') => (Ok a, w')
           | (Raise e, w') => handler e w'
           end.

(** stdpp's monad notation [x ← m; k] for [M] and for [result]. *)
#[global] Instance M_ret : MRet M := @ret.
#[global] Instance M_bind : MBind M := fun A B f m => bind m f.
#[global] Instance result_ret : MRet result := @Ok.
#[global] Instance result_bind : MBind result := fun A B f x => rbind x f.

(** [[f(x) for x in l]], run from left to right. *)
Section MapM.
Context {A B : Type} (f : A -> M B).

Fixpoint mapM (l : list A) : M (list B) :=
  match l with
  | [] => ret []
  | a :: l' => b ← f a; bs ← mapM l'; ret (b :: bs)
  end.
End MapM.

Definition is_class (w : world) (o : oid) : bool :=
  match heap w !! o with
  | Some ob => match ob_kind ob with KClass => true | _ => false end
  | None => false
  end.

(** [cls.mro()]: only classes have it. *)
Definition mro (w : world) (o : oid) : result (list oid) :=
  match heap w !! o with
  | Some ob =>
      match ob_kind ob with
      | KClass => Ok (ob_mro ob)
      | _ => Raise (AttributeError o "mro")
      end
  | None => Raise (AttributeError o "mro")
  end.

Definition mro_list (w : world) (o : oid) : list oid :=
  match mro w o with Ok l => l | Raise _ => [] end.

(** The first of the objects [os] whose own dict has [name]. *)
Fixpoint lookup_along (w : world) (name : string) (os : list oid) : option oid :=
  match os with
  | [] => None
  | o :: os' =>
      match heap w !! o ≫= (fun ob => ob_dict ob !! name) with
      | Some v => Some v
      | None => lookup_along w name os'
      end
  end.

(** [getattr(o, name)]: a class is searched along its mro, an instance in
    its own dict and then along the mro of its class, a module or a
    function in its own dict. *)
Definition getattr (w : world) (o : oid) (name : string) : result oid :=
  match heap w !! o with
  | None => Raise (AttributeError o name)
  | Some ob =>
      let where_ :=
        match ob_kind ob with
        | KClass => ob_mro ob
        | KInstance => o :: mro_list w (ob_class ob)
        | KModule | KFunction => [o]
        end in
      match lookup_along w name where_ with
      | Some v => Ok v
      | None => Raise (AttributeError o name)
      end
  end.

(** [o.__name__] and [o.__module__] *)
Definition get_name (w : world) (o : oid) : result string :=
  match heap w !! o ≫= ob_name with
  | Some n => Ok n
  | None => Raise (AttributeError o "__name__")
  end.

Definition get_module (w : world) (o : oid) : result string :=
  match heap w !! o ≫= ob_module with
  | Some n => Ok n
  | None => Raise (AttributeError o "__module__")
  end.

(** [importlib.import_module(name)] with no package: an empty name is a
    [ValueError], a relative name a [TypeError]; a module of
    [sys.modules] is returned as it is; otherwise the module is found,
    entered in [sys.modules] and its body executed, or
    [ModuleNotFoundError] is raised. *)
Definition import_module (name : string) : M oid := fun w =>
  let w1 := MkWorld (heap w) (finder w) (sys_modules w) (executed w)
                    (import_calls w ++ [name]) in
  if String.eqb name "" then (Raise (ValueError "Empty module name"), w1)
  else if String.prefix "." name then
    (Raise (TypeError
       "the 'package' argument is required to perform a relative import"
       [VStr name]), w1)
  else
    match sys_modules w !! name with
    | Some m => (Ok m, w1)
    | None =>
        match finder w !! name with
        | Some m =>
            (Ok m, MkWorld (heap w) (finder w) (<[name := m]> (sys_modules w))
                           (executed w ++ [name]) (import_calls w ++ [name]))
        | None => (Raise (ModuleNotFoundError name), w1)
        end
    end.

(** *** The linearisation by which [type()] computes the mro of a new class *)

Definition oid_in (x : oid) (l : list oid) : bool := existsb (Nat.eqb x) l.

Definition nonempty (s : list oid) : bool :=
  match s with [] => false | _ => true end.

(** The head of the first sequence whose head is in no sequence's tail. *)
Fixpoint c3_candidate (all rest : list (list oid)) : option oid :=
  match rest with
  | [] => None
  | [] :: rest' => c3_candidate all rest'
  | (h :: _) :: rest' =>
      if existsb (fun s => oid_in h (List.tl s)) all then c3_candidate all rest'
      else Some h
  end.

Definition drop_head (h : oid) (s : list oid) : list oid :=
  match s with
  | x :: t => if Nat.eqb x h then t else s
  | [] => []
  end.

Fixpoint c3_merge_fuel (fuel : nat) (seqs : list (list oid)) : option (list oid) :=
  let seqs := List.filter nonempty seqs in
  match seqs with
  | [] => Some []
  | _ =>
      match fuel with
      | O => None
      | S fuel' =>
          match c3_candidate seqs seqs with
          | None => None
          | Some h =>
              option_map (cons h) (c3_merge_fuel fuel' (List.map (drop_head h) seqs))
          end
      end
  end.

Definition total_len (seqs : list (list oid)) : nat :=
  list_sum (List.map (@length oid) seqs).

(** Every round takes a head away, so the total length is fuel enough. *)
Definition c3_merge (seqs : list (list oid)) : option (list oid) :=
  c3_merge_fuel (total_len seqs) seqs.

(** The module whose code calls [type()], recorded as [__module__] of the
    class it makes. *)
Definition THIS_MODULE : string := "jgdv.structs.code_ref".

(** [type(name, bases, {})]: the bases must be classes with a consistent
    linearisation; the new class is a new heap object, its metaclass
    taken from its first base.  (It is called here with at least one
    base.) *)
Definition type_new (name : string) (bases : list oid) : M oid := fun w =>
  if forallb (is_class w) bases then
    match c3_merge (List.map (mro_list w) bases ++ [bases]) with
    | Some lin =>
        let c := length (heap w) in
        let meta := match bases with
                    | b :: _ => match heap w !! b with
                                | Some ob => ob_class ob
                                | None => 0
                                end
                    | [] => 0
                    end in
        (Ok c, MkWorld (heap w ++ [MkObj KClass (Some name) (Some THIS_MODULE) ∅
                                        bases (c :: lin) meta])
                       (finder w) (sys_modules w) (executed w) (import_calls w))
    | None =>
        (Raise (TypeError
           "Cannot create a consistent method resolution order (MRO) for bases"
           (List.map VObj bases)), w)
    end
  else (Raise (TypeError "bases must be types" (List.map VObj bases)), w).

(** [isinstance(o, cls)] and [issubclass(o, cls)] *)
Definition isinstance (w : world) (o cls : oid) : result bool :=
  if is_class w cls then
    match heap w !! o with
    | Some ob => Ok (oid_in cls (mro_list w (ob_class ob)))
    | None => Ok false
    end
  else Raise (TypeError "isinstance() arg 2 must be a type" [VObj cls]).

Definition issubclass (w : world) (o cls : oid) : result bool :=
  if is_class w o then
    if is_class w cls then Ok (oid_in cls (mro_list w o))
    else Raise (TypeError "issubclass() arg 2 must be a class" [VObj cls])
  else Raise (TypeError "issubclass() arg 1 must be a class" [VObj o]).

(** ** The methods of [JGDVCodeReference] *)

(** [build]: a [match] on the argument with three cases; any other
    argument falls through and [None] is returned.  The entry point case
    evaluates [ctor.load()], and [ctor] is bound neither in the method nor
    in the module. *)
Definition build (w : world) (name : pyval) : result (option JGDVCodeReference) :=
  match name with
  | VStr s => r ← _from_str s; Ok (Some r)
  | VObj o =>
      if is_class w o then
        groupHead ← get_module w o;
        codeHead ← get_name w o;
        Ok (Some (new_ref (ArgStr groupHead) (ArgStr codeHead) [] (Some o)))
      else Ok None
  | VEntryPoint _ => Raise (NameError "ctor")
  | VRef _ | VNone => Ok None
  end.

(** The reference a supplied mixin stands for (the [match mix] of
    [add_mixins]).  [build] returns a reference on a [str] and on a
    [type] (lemma [build_no_fall_through]), so its [None] is not met
    here. *)
Definition mixin_ref (w : world) (plugins : option plugins_t) (mix : pyval)
    : result JGDVCodeReference :=
  let built :=
    match build w mix with
    | Ok (Some r) => Ok r
    | Ok None => Raise (TypeError "Unrecognised mixin type" [mix])
    | Raise e => Raise e
    end in
  match mix with
  | VRef r => Ok r
  | VStr s =>
      match plugins with
      | Some p => from_alias s "mixin" p
      | None => built
      end
  | VObj o =>
      if is_class w o then built
      else Raise (TypeError "Unrecognised mixin type" [mix])
  | VEntryPoint _ | VNone => Raise (TypeError "Unrecognised mixin type" [mix])
  end.

(** [add_mixins] appends to a list, and a Python list is an object: the
    lists of mixins live in a store, a list being known by its index.
    The references in them are values: no method changes a reference once
    it is made. *)
Abbreviation mixin_store := (list (list JGDVCodeReference)).

(** An instance of [JGDVCodeReference] whose [_mixins] field is a list
    object of the store. *)
Record instance := MkInstance {
  i_head : list string;
  i_tail : list string;
  i_separator : string;
  i_subseparator : string;
  i_mixins : nat;
  i_type : option oid
}.

(** The list object at [l]. *)
Definition list_at (st : mixin_store) (l : nat) : list JGDVCodeReference :=
  default [] (st !! l).

(** The reference an instance is, with the present content of its list. *)
Definition snapshot (st : mixin_store) (i : instance) : JGDVCodeReference :=
  MkRef (i_head i) (i_tail i) (i_separator i) (i_subseparator i)
        (list_at st (i_mixins i)) (i_type i).

(** [lst[:]]: a new list object with the same elements. *)
Definition list_copy (l : nat) (st : mixin_store) : nat * mixin_store :=
  (length st, st ++ [list_at st l]).

(** [lst.append(x)]: the list object is changed in place. *)
Definition list_append (l : nat) (x : JGDVCodeReference) (st : mixin_store)
    : mixin_store :=
  alter (fun elems => elems ++ [x]) l st.

(** The loop of [add_mixins] over the supplied mixins; [to_add] is the
    list object appended to. *)
Fixpoint add_loop (w : world) (plugins : option plugins_t) (mixins : list pyval)
    (to_add : nat) (st : mixin_store) : result unit * mixin_store :=
  match mixins with
  | [] => (Ok tt, st)
  | mix :: rest =>
      match mixin_ref w plugins mix with
      | Raise e => (Raise e, st)
      | Ok ref =>
          add_loop w plugins rest to_add
            (if ref_in ref (list_at st to_add) then st
             else list_append to_add ref st)
      end
  end.

Definition add_mixins (self : instance) (mixins : list pyval)
    (plugins : option plugins_t) (w : world) (st : mixin_store)
    : result instance * mixin_store :=
  let '(to_add, st1) := list_copy (i_mixins self) st in
  match add_loop w plugins mixins to_add st1 with
  | (Raise e, st2) => (Raise e, st2)
  | (Ok _, st2) =>
      (Ok (MkInstance (segments (ArgList (i_head self)))
                      (segments (ArgList (i_tail self)))
                      IMPORT_SEP "." to_add (i_type self)), st2)
  end.

(** [for name in self.tail: curr = getattr(curr, name)] *)
Fixpoint walk (curr : oid) (names : list string) : M oid :=
  match names with
  | [] => ret curr
  | name :: rest => next ← reading (fun w => getattr w curr name); walk next rest
  end.

(** The check against [ensure]; [None] is [typing.Any]. *)
Definition check_ensure (self : JGDVCodeReference) (ensure : option oid)
    (curr : oid) : M oid :=
  match ensure with
  | None => ret curr
  | Some e =>
      inst ← reading (fun w => isinstance w curr e);
      if (inst : bool) then ret curr
      else
        sub ← reading (fun w => issubclass w curr e);
        if (sub : bool) then ret curr
        else raise (ImportError "Imported Code Reference is not of correct type"
                      [VRef self; VObj e])
  end.

(** The two [except] clauses of [try_import]; any other exception goes
    on to the caller. *)
Definition import_handler (self : JGDVCodeReference) (e : exn) : M oid :=
  match e with
  | ModuleNotFoundError _ =>
      raise (ImportError "Module can't be found" [VStr (str self)])
  | AttributeError _ _ =>
      raise (ImportError "Attempted to import %s but failed" [VStr (str self)])
  | _ => raise e
  end.

(** [try_import].  No statement of it assigns to a field of [self]: the
    instance is the same value before and after the call.  The mixins are
    references ([_mixins : list[JGDVCodeReference]]), each resolved by its
    own [try_import()]. *)
Fixpoint try_import (self : JGDVCodeReference) (ensure : option oid) : M oid :=
  match self with
  | MkRef _ tl _ _ mixins_ ty =>
      try_except
        (curr ← match ty with
                | Some t => ret t
                | None => mod_ ← import_module (module self); walk mod_ tl
                end;
         curr ← match mixins_ with
                | [] => ret curr
                | _ :: _ =>
                    mixins ← (fix each (ms : list JGDVCodeReference) : M (list oid) :=
                                match ms with
                                | [] => ret []
                                | mix :: ms' =>
                                    t ← try_import mix None;
                                    ts ← each ms';
                                    ret (t :: ts)
                                end) mixins_;
                    name ← reading (fun w => get_name w curr);
                    type_new ("DootGenerated:" +:+ name) (mixins ++ [curr])
                end;
         check_ensure self ensure curr)
        (import_handler self)
  end.

(** The stages of [try_import], named for the statements (lemma
    [try_import_eq]): the target, from [_type] or by import and attribute
    walk; the mixins, each by its own [try_import()]; the composite type. *)
Definition resolve_target (self : JGDVCodeReference) : M oid :=
  match _type self with
  | Some t => ret t
  | None => mod_ ← import_module (module self); walk mod_ (tail self)
  end.

Definition import_mixins (ms : list JGDVCodeReference) : M (list oid) :=
  mapM (fun mix => try_import mix None) ms.

Definition compose (self : JGDVCodeReference) (curr : oid) : M oid :=
  match _mixins self with
  | [] => ret curr
  | _ :: _ =>
      mixins ← import_mixins (_mixins self);
      name ← reading (fun w => get_name w curr);
      type_new ("DootGenerated:" +:+ name) (mixins ++ [curr])
  end.

(** [sorted(xs, key=...)]: stable, ascending. *)
Fixpoint insert_by {A} (key : A -> nat) (x : A) (l : list A) : list A :=
  match l with
  | [] => [x]
  | y :: l' => if key x <=? key y then x :: l else y :: insert_by key x l'
  end.

Fixpoint sorted {A} (key : A -> nat) (l : list A) : list A :=
  match l with
  | [] => []
  | x :: l' => insert_by key x (sorted key l')
  end.

(** The loop of [_calculate_minimal_mixins]: [found] is the set of
    ancestors of the mixins chosen so far. *)
Fixpoint minimal_loop (order : list oid) (found : gset oid) (minimal_mixins : list oid)
    : M (list oid) :=
  match order with
  | [] => ret minimal_mixins
  | mixin :: rest =>
      if decide (mixin ∈ found) then minimal_loop rest found minimal_mixins
      else
        ancestors ← reading (fun w => mro w mixin);
        minimal_loop rest (found ∪ list_to_set ancestors) (minimal_mixins ++ [mixin])
  end.

(** [_calculate_minimal_mixins]: the mixins are resolved in list order,
    the key [len(x.mro())] is taken of each, and the loop runs over
    [reversed(sorted(...))].  ([plugins] is not used.) *)
Definition _calculate_minimal_mixins (self : JGDVCodeReference) (plugins : plugins_t)
    : M (list (option JGDVCodeReference)) :=
  types ← mapM (fun x => try_import x None) (_mixins self);
  keyed ← mapM (fun x => m ← reading (fun w => mro w x); ret (x, length m)) types;
  minimal_mixins ← minimal_loop (List.map fst (rev (sorted snd keyed))) ∅ [];
  mapM (fun x => reading (fun w => build w (VObj x))) minimal_mixins.

(** [plugins[group]] *)
Definition plugins_get (plugins : plugins_t) (group : string) : result (list plugin) :=
  match plugins !! group with
  | Some recs => Ok recs
  | None => Raise (KeyError group)
  end.

(** The first part of [to_aliases]: the name of the first record of the
    group whose value is the rendered reference, or the rendered reference. *)
Definition base_alias (self : JGDVCodeReference) (group : string) (plugins : plugins_t)
    : result string :=
  recs ← plugins_get plugins group;
  match filter (fun x => pl_value x = str self) recs with
  | x :: _ => Ok (pl_name x)
  | [] => Ok (str self)
  end.

(** [to_aliases] as it runs when [group] is ["mixins"]: no mixin is
    looked at. *)
Definition to_aliases_of_mixin (self : JGDVCodeReference) (plugins : plugins_t)
    : M (string * list string) :=
  base ← reading (fun _ => base_alias self "mixins" plugins);
  ret (base, []).

(** [to_aliases]; the calls it makes on the minimal mixins have the group
    ["mixins"], so they are [to_aliases_of_mixin] (lemma
    [to_aliases_mixins_group]).  A [None] among the minimal mixins has no
    [to_aliases]. *)
Definition to_aliases (self : JGDVCodeReference) (group : string)
    (plugins : plugins_t) : M (string * list string) :=
  base ← reading (fun _ => base_alias self group plugins);
  mixins ←
    (if decide (group ≠ "mixins") then
       minimal ← _calculate_minimal_mixins self plugins;
       mapM (fun x =>
               match x with
               | Some r => p ← to_aliases_of_mixin r plugins; ret (fst p)
               | None => raise (AttributeError 0 "to_aliases")
               end) minimal
     else ret []);
  ret (base, mixins).

(** ** A small interpreter state for examples

    [object] and [type], a module [pkg.mod] with the classes [Target],
    [M1], [M2(M1)] and [M3] and a function [helper]. *)
Module Demo.

Definition cls (name modname : string) (bases mro_ : list oid) : obj :=
  MkObj KClass (Some name) (Some modname) ∅ bases mro_ 1.

Definition heap0 : list obj :=
  [ cls "object" "builtins" [] [0];
    cls "type" "builtins" [0] [1; 0];
    MkObj KModule (Some "pkg.mod") None
          (list_to_map [("Target", 3); ("M1", 4); ("M2", 5); ("helper", 6); ("M3", 9)])
          [] [] 7;
    cls "Target" "pkg.mod" [0] [3; 0];
    cls "M1" "pkg.mod" [0] [4; 0];
    cls "M2" "pkg.mod" [4] [5; 4; 0];
    MkObj KFunction (Some "helper") (Some "pkg.mod") ∅ [] [] 8;
    cls "module" "builtins" [0] [7; 0];
    cls "function" "builtins" [0] [8; 0];
    cls "M3" "pkg.mod" [0] [9; 0] ].

Definition w0 : world :=
  MkWorld heap0 {[ "pkg.mod" := 2 ]} ∅ [] [].

Definition target : JGDVCodeReference :=
  new_ref (ArgList ["pkg"; "mod"]) (ArgList ["Target"]) [] None.
Definition m1 : JGDVCodeReference :=
  new_ref (ArgList ["pkg"; "mod"]) (ArgList ["M1"]) [] None.
Definition m2 : JGDVCodeReference :=
  new_ref (ArgList ["pkg"; "mod"]) (ArgList ["M2"]) [] None.
Definition m3 : JGDVCodeReference :=
  new_ref (ArgList ["pkg"; "mod"]) (ArgList ["M3"]) [] None.
Definition helper : JGDVCodeReference :=
  new_ref (ArgList ["pkg"; "mod"]) (ArgList ["helper"]) [] None.

End Demo.

(** ** Notions used in the statements *)

(** No two entries of a mixin list are equal by value. *)
Fixpoint nodup_val (l : list JGDVCodeReference) : bool :=
  match l with
  | [] => true
  | x :: t => negb (ref_in x t) && nodup_val t
  end.

(** One round of the loop of [add_mixins] on the content of [to_add]. *)
Definition add_one (acc : list JGDVCodeReference) (r : JGDVCodeReference)
    : list JGDVCodeReference :=
  if ref_in r acc then acc else acc ++ [r].

(** The supplied references that get appended to [present]. *)
Fixpoint appended (present supplied : list JGDVCodeReference)
    : list JGDVCodeReference :=
  match supplied with
  | [] => []
  | x :: rest =>
      if ref_in x present then appended present rest
      else x :: appended (present ++ [x]) rest
  end.

(** The state [w'] is the state [w] with more in it: objects added at the
    end of the heap, calls and executions added to the logs. *)
Definition extends (w w' : world) : Prop :=
  heap w `prefix_of` heap w' /\
  import_calls w `prefix_of` import_calls w' /\
  executed w `prefix_of` executed w' /\
  finder w' = finder w.

(** A class as Python makes it: it has a name and a module, and its mro
    begins with the class itself, repeats nothing, holds classes only and
    holds the whole mro of each of its members. *)
Definition wf_class (w : world) (c : oid) (ob : obj) : Prop :=
  is_Some (ob_name ob) /\
  is_Some (ob_module ob) /\
  hd_error (ob_mro ob) = Some c /\
  NoDup (ob_mro ob) /\
  Forall (fun y => is_class w y = true /\ mro_list w y ⊆ ob_mro ob) (ob_mro ob).

Definition wf_world (w : world) : Prop :=
  forall c ob, heap w !! c = Some ob -> ob_kind ob = KClass -> wf_class w c ob.

(** The minimal mixins in the words of the spec.  A mixin is covered when
    its whole ancestor set is within the ancestor set of one mixin chosen
    before it; the mixins are gone through in order, the covered ones
    skipped and the others chosen. *)
Definition covered (w : world) (m : oid) (chosen : list oid) : bool :=
  existsb (fun s => forallb (fun a => oid_in a (mro_list w s)) (mro_list w m)) chosen.

Fixpoint select_minimal (w : world) (order chosen : list oid) : list oid :=
  match order with
  | [] => chosen
  | m :: rest =>
      if covered w m chosen then select_minimal w rest chosen
      else select_minimal w rest (chosen ++ [m])
  end.

(** Descending length of the ancestor chain. *)
Definition descending (w : world) (order : list oid) : Prop :=
  StronglySorted (fun a b => length (mro_list w b) <= length (mro_list w a)) order.

(** The reference form of a type: what [build] makes of it. *)
Definition is_ref_of (w : world) (x : oid) (r : option JGDVCodeReference) : Prop :=
  exists m n,
    get_module w x = Ok m /\ get_name w x = Ok n /\
    r = Some (MkRef [m] [n] IMPORT_SEP "." [] (Some x)).

(** The keys of the sort of [_calculate_minimal_mixins], and the order
    its loop goes in: [reversed(sorted(...))]. *)
Definition keyed (w : world) (types : list oid) : list (oid * nat) :=
  List.map (fun x => (x, length (mro_list w x))) types.

Definition loop_order (w : world) (types : list oid) : list oid :=
  List.map fst (rev (sorted snd (keyed w types))).

(** A computation keeps the relation [R] when the state it leaves is
    related to the state it was started in. *)
Definition keeps (R : world -> world -> Prop) {A} (m : M A) : Prop :=
  forall w, R w (snd (m w)).

(** The exceptions that the [except] clauses of [try_import] do not
    catch. *)
Definition passes_through (e : exn) : Prop :=
  match e with
  | ModuleNotFoundError _ | AttributeError _ _ => False
  | _ => True
  end.

(** No type of the list is repeated, and none is among the ancestors of
    another. *)
Definition apart (w : world) (l : list oid) : Prop :=
  NoDup l /\ forall a b, a ∈ l -> b ∈ l -> a ∈ mro_list w b -> a = b.

(** The name of the first record whose value is [s], or [s] itself. *)
Definition alias_or_literal (recs : list plugin) (s : string) : string :=
  match filter (fun x => pl_value x = s) recs with
  | x :: _ => pl_name x
  | [] => s
  end.

(** * Properties *)

(** ** Facts about the string operations *)

Module PyStrFacts.
Import PyStr.

Lemma split_not_nil sep s : split sep s <> [].
Proof.
  destruct s as [|c s]; simpl; [discriminate|].
  destruct (Ascii.eqb c sep); [discriminate|].
  destruct (split sep s); discriminate.
Qed.

Lemma split_length sep s : length (split sep s) = S (count sep s).
Proof.
  induction s as [|c s IH]; simpl; [reflexivity|].
  destruct (Ascii.eqb c sep); simpl.
  - now rewrite IH.
  - destruct (split sep s) eqn:E; simpl in *; [discriminate|exact IH].
Qed.

(** Joining what was split gives the string back. *)
Lemma join_split sep s : join (char sep) (split sep s) = s.
Proof.
  unfold join, char.
  induction s as [|c s IH]; simpl; [reflexivity|].
  destruct (Ascii.eqb c sep) eqn:E.
  - apply Ascii.eqb_eq in E; subst c.
    pose proof (split_not_nil sep s) as Hne.
    destruct (split sep s) as [|p ps] eqn:Es; [congruence|].
    simpl. simpl in IH. now rewrite IH.
  - destruct (split sep s) as [|p ps] eqn:Es; simpl in *.
    + now subst s.
    + destruct ps; simpl in *; now rewrite <- IH.
Qed.

(** The pieces of a split do not hold the separator. *)
Lemma split_pieces sep s p : In p (split sep s) -> count sep p = 0.
Proof.
  revert p; induction s as [|c s IH]; simpl; intros p Hp.
  - destruct Hp as [<-|[]]; reflexivity.
  - destruct (Ascii.eqb c sep) eqn:E.
    + destruct Hp as [<-|Hp]; [reflexivity|auto].
    + destruct (split sep s) as [|q qs] eqn:Es.
      * destruct Hp as [<-|[]]; simpl; now rewrite E.
      * destruct Hp as [<-|Hp]; simpl.
        -- rewrite E; simpl. apply IH; now left.
        -- apply IH; now right.
Qed.

Lemma prefix_cons_false c d sub s :
  Ascii.eqb c d = false -> String.prefix (String c sub) (String d s) = false.
Proof.
  intros H; simpl. destruct (ascii_dec c d) as [->|]; [|reflexivity].
  now rewrite Ascii.eqb_refl in H.
Qed.

(** A string without the character [c] holds no substring starting with
    [c]. *)
Lemma count_0_contains c sub s :
  count c s = 0 -> contains (String c sub) s = false.
Proof.
  induction s as [|a s IH]; simpl; intros H; [reflexivity|].
  destruct (Ascii.eqb a c) eqn:E; [discriminate|].
  simpl in H. rewrite (IH H), orb_false_r.
  destruct (ascii_dec c a) as [->|]; [|reflexivity].
  now rewrite Ascii.eqb_refl in E.
Qed.

Lemma contains_char_count c s :
  contains (char c) s = false <-> count c s = 0.
Proof.
  split; [|apply count_0_contains].
  unfold char. induction s as [|a s IH]; simpl; intros H; [reflexivity|].
  apply orb_false_iff in H as [H1 H2].
  destruct (ascii_dec c a) as [->|Hn].
  - destruct s; discriminate.
  - destruct (Ascii.eqb a c) eqn:E.
    + apply Ascii.eqb_eq in E; congruence.
    + simpl; auto.
Qed.

End PyStrFacts.

(** ** Construction from a string *)

Section FromStr.
Import PyStrFacts.

Lemma contains_colon name : PyStr.count ":" name <> 0 -> PyStr.contains ":" name = true.
Proof.
  intros H. destruct (PyStr.contains ":" name) eqn:E; [reflexivity|].
  apply (contains_char_count ":"%char) in E. contradiction.
Qed.

Lemma split_two sep s :
  PyStr.count sep s = 1 ->
  exists a b, PyStr.split sep s = [a; b] /\ s = a +:+ PyStr.char sep +:+ b /\
              PyStr.count sep a = 0 /\ PyStr.count sep b = 0.
Proof.
  intros H. pose proof (split_length sep s) as Hl. rewrite H in Hl.
  pose proof (join_split sep s) as Hj.
  pose proof (split_pieces sep s) as Hp.
  destruct (PyStr.split sep s) as [|a [|b [|c l]]]; try discriminate.
  exists a, b. repeat split.
  - symmetry; exact Hj.
  - apply Hp; now left.
  - apply Hp; right; now left.
Qed.

Lemma str_new_ref_lists a b :
  str (new_ref (ArgList (PyStr.split "." a)) (ArgList (PyStr.split "." b)) [] None)
  = a +:+ ":" +:+ b.
Proof.
  unfold str, module, value, new_ref, segments, IMPORT_SEP.
  cbn [head tail separator subseparator].
  change "."%string with (PyStr.char ".").
  now rewrite !join_split.
Qed.

End FromStr.

(** C3: a string with exactly one colon and no double-separator token
    [a:b] is split at the colon, the part before it on the dot into the
    module path, the part after it on the dot into the attribute path, and
    the reference built renders back to the input string. *)
Theorem from_str_roundtrip (name : string) :
  PyStr.count ":" name = 1 ->
  PyStr.contains TASK_SEP name = false ->
  exists r a b,
    name = a +:+ ":" +:+ b /\ PyStr.count ":" a = 0 /\ PyStr.count ":" b = 0 /\
    _from_str name = Ok r /\
    head r = PyStr.split "." a /\ tail r = PyStr.split "." b /\
    module r = a /\ value r = b /\
    str r = name.
Proof.
  intros Hc Ht.
  destruct (split_two ":"%char name Hc) as (a & b & Hs & Hn & Ha & Hb).
  exists (new_ref (ArgList (PyStr.split "." a)) (ArgList (PyStr.split "." b)) [] None), a, b.
  unfold _from_str. rewrite Ht, contains_colon, Hs by (rewrite Hc; discriminate).
  repeat split; try assumption.
  - apply (PyStrFacts.join_split "."%char).
  - apply (PyStrFacts.join_split "."%char).
  - rewrite str_new_ref_lists. symmetry; exact Hn.
Qed.

Lemma from_str_roundtrip_witness :
  exists r a b,
    "a.b:C.d" = a +:+ ":" +:+ b /\ PyStr.count ":" a = 0 /\ PyStr.count ":" b = 0 /\
    _from_str "a.b:C.d" = Ok r /\
    head r = PyStr.split "." a /\ tail r = PyStr.split "." b /\
    module r = a /\ value r = b /\
    str r = "a.b:C.d".
Proof. apply (from_str_roundtrip "a.b:C.d"); reflexivity. Defined.

(** The example of the spec: ["a.b:C.d"] gives the module path
    [["a"; "b"]] and the attribute path [["C"; "d"]]. *)
Example from_str_example :
  exists r, _from_str "a.b:C.d" = Ok r /\ head r = ["a"; "b"] /\ tail r = ["C"; "d"] /\
            str r = "a.b:C.d".
Proof. eexists; repeat split. Qed.

(** C4: a string without a colon (and without the double-separator token)
    is accepted; the module path of the reference is empty and its
    attribute path is the whole string. *)
Theorem from_str_no_colon (name : string) :
  PyStr.contains ":" name = false ->
  PyStr.contains TASK_SEP name = false ->
  exists r, _from_str name = Ok r /\ head r = [] /\ tail r = [name] /\
            module r = "" /\ value r = name.
Proof.
  intros Hc Ht. unfold _from_str. rewrite Ht, Hc.
  eexists; repeat split.
Qed.

Lemma from_str_no_colon_witness :
  exists r, _from_str "Target.attr" = Ok r /\ head r = [] /\ tail r = ["Target.attr"] /\
            module r = "" /\ value r = "Target.attr".
Proof. apply (from_str_no_colon "Target.attr"); reflexivity. Defined.

(** C8, as the code has it: a string with the double-separator token is
    refused with [DootError]; a string without it that has a colon and
    does not split at the colon into two parts is refused with
    [DootConfigError]; no reference is produced in either case. *)
Theorem from_str_rejects (name : string) :
  PyStr.contains TASK_SEP name = true \/
  (PyStr.contains ":" name = true /\ length (PyStr.split ":" name) <> 2) ->
  (PyStr.contains TASK_SEP name = true ->
   _from_str name =
     Raise (DootError "Code References should use a single colon, not double")) /\
  (PyStr.contains TASK_SEP name = false ->
   _from_str name =
     Raise (DootConfigError
       "Code ref can't be split correctly, ensure its of the form x.y.z:ClassName"
       name)) /\
  (forall r, _from_str name <> Ok r).
Proof.
  intros H. unfold _from_str.
  destruct (PyStr.contains TASK_SEP name) eqn:Ht.
  - repeat split; [discriminate | intros r; discriminate].
  - destruct H as [H|[Hc Hl]]; [discriminate|]. rewrite Hc.
    destruct (PyStr.split ":" name) as [|a [|b [|c l]]]; simpl in Hl;
      try congruence; repeat split; try discriminate; intros r; discriminate.
Qed.

Lemma from_str_rejects_witness :
  _from_str "a:b:c" =
    Raise (DootConfigError
      "Code ref can't be split correctly, ensure its of the form x.y.z:ClassName"
      "a:b:c") /\
  _from_str "a::b" =
    Raise (DootError "Code References should use a single colon, not double").
Proof.
  split.
  - destruct (from_str_rejects "a:b:c") as (_ & H & _).
    + right. split; [reflexivity | simpl; lia].
    + apply H. reflexivity.
  - destruct (from_str_rejects "a::b") as (H & _).
    + left. reflexivity.
    + apply H. reflexivity.
Defined.

(** C8 as stated fails: ["a::b"] holds the double-separator token, and
    the error raised is [DootError], not [DootConfigError]. *)
Lemma from_str_double_sep_not_config :
  PyStr.contains TASK_SEP "a::b" = true /\
  _from_str "a::b" =
    Raise (DootError "Code References should use a single colon, not double") /\
  ~ (exists msg n, _from_str "a::b" = Raise (DootConfigError msg n)).
Proof.
  repeat split. intros (msg & n & H). discriminate H.
Qed.

(** ** Adding mixins *)

Section AddMixins.

Lemma ref_eqb_refl r : ref_eqb r r = true.
Proof. apply String.eqb_refl. Qed.

Lemma ref_eqb_sym a b : ref_eqb a b = ref_eqb b a.
Proof. apply String.eqb_sym. Qed.

Lemma ref_in_app x a b : ref_in x (a ++ b) = ref_in x a || ref_in x b.
Proof. apply existsb_app. Qed.

Lemma ref_in_elem x l : x ∈ l -> ref_in x l = true.
Proof.
  intros H. apply existsb_exists. exists x. split.
  - now apply list_elem_of_In.
  - apply ref_eqb_refl.
Qed.

(** Membership by value does not tell apart two references equal by
    value. *)
Lemma ref_in_eqb x y l : ref_eqb x y = true -> ref_in x l = ref_in y l.
Proof.
  intros H. apply String.eqb_eq in H. unfold ref_in.
  induction l as [|z l IH]; simpl; [reflexivity|].
  rewrite IH. unfold ref_eqb. now rewrite H.
Qed.

Lemma fold_add_one ms refs : fold_left add_one refs ms = ms ++ appended ms refs.
Proof.
  revert ms; induction refs as [|x refs IH]; intros ms; simpl.
  - now rewrite app_nil_r.
  - unfold add_one at 2. destruct (ref_in x ms); rewrite IH; [reflexivity|].
    now rewrite <- app_assoc.
Qed.

Lemma appended_sublist ms refs : appended ms refs `sublist_of` refs.
Proof.
  revert ms; induction refs as [|x refs IH]; intros ms; simpl; [constructor|].
  destruct (ref_in x ms); [apply sublist_cons | apply sublist_skip]; apply IH.
Qed.

Lemma appended_absent ms refs x :
  x ∈ appended ms refs -> ref_in x ms = false.
Proof.
  revert ms; induction refs as [|y refs IH]; intros ms; simpl.
  - intros H; inversion H.
  - destruct (ref_in y ms) eqn:E; [apply IH|].
    intros H. apply elem_of_cons in H as [->|H]; [exact E|].
    apply IH in H. rewrite ref_in_app in H. now apply orb_false_iff in H as [H _].
Qed.

Lemma appended_nodup ms refs : nodup_val (appended ms refs) = true.
Proof.
  revert ms; induction refs as [|y refs IH]; intros ms; simpl; [reflexivity|].
  destruct (ref_in y ms) eqn:E; [apply IH|]. simpl. rewrite IH, andb_true_r.
  destruct (ref_in y (appended (ms ++ [y]) refs)) eqn:Hy; [|reflexivity].
  apply existsb_exists in Hy as (z & Hz & Hyz).
  apply list_elem_of_In, appended_absent in Hz.
  rewrite ref_in_app in Hz. apply orb_false_iff in Hz as [_ Hz].
  simpl in Hz. rewrite ref_eqb_sym, Hyz in Hz. discriminate.
Qed.

Lemma appended_covers ms refs x :
  x ∈ refs -> ref_in x (ms ++ appended ms refs) = true.
Proof.
  revert ms; induction refs as [|y refs IH]; intros ms H; [inversion H|].
  simpl. apply elem_of_cons in H as [->|H].
  - destruct (ref_in y ms) eqn:E.
    + rewrite ref_in_app, E. reflexivity.
    + rewrite ref_in_app. simpl. rewrite ref_eqb_refl. apply orb_true_r.
  - destruct (ref_in y ms) eqn:E; [now apply IH|].
    specialize (IH (ms ++ [y]) H). rewrite <- app_assoc in IH. exact IH.
Qed.

Lemma nodup_val_app a b :
  nodup_val a = true -> nodup_val b = true ->
  (forall x, x ∈ b -> ref_in x a = false) ->
  nodup_val (a ++ b) = true.
Proof.
  induction a as [|y a IH]; simpl; intros Ha Hb Hd; [exact Hb|].
  apply andb_true_iff in Ha as [Hy Ha]. apply andb_true_iff; split.
  - rewrite ref_in_app. apply negb_true_iff in Hy. rewrite Hy. simpl.
    apply negb_true_iff. destruct (ref_in y b) eqn:E; [|reflexivity].
    apply existsb_exists in E as (z & Hz & Hyz).
    apply list_elem_of_In, Hd in Hz. simpl in Hz.
    rewrite ref_eqb_sym, Hyz in Hz. discriminate.
  - apply IH; [exact Ha | exact Hb |].
    intros x Hx. apply Hd in Hx. simpl in Hx. now apply orb_false_iff in Hx as [_ Hx].
Qed.

(** Supplying again what is already there by value changes nothing. *)
Lemma appended_all_present ms refs :
  (forall x, x ∈ refs -> ref_in x ms = true) -> appended ms refs = [].
Proof.
  induction refs as [|y refs IH]; simpl; intros H; [reflexivity|].
  rewrite (H y) by constructor. apply IH. intros x Hx. apply H. now constructor.
Qed.

Lemma list_at_lookup (st : mixin_store) l : l < length st -> st !! l = Some (list_at st l).
Proof.
  intros H. unfold list_at. destruct (st !! l) eqn:E; [reflexivity|].
  apply lookup_ge_None in E. lia.
Qed.

Lemma list_append_insert (st : mixin_store) l x :
  list_append l x st = <[l := list_at st l ++ [x]]> st.
Proof.
  unfold list_append. apply list_eq. intros j.
  destruct (decide (l = j)) as [<-|Hne].
  - rewrite list_lookup_alter_eq. unfold list_at.
    destruct (st !! l) eqn:E; simpl.
    + rewrite list_lookup_insert_eq; [reflexivity|]. now apply lookup_lt_Some in E.
    + rewrite list_insert_ge, E; [reflexivity|]. now apply lookup_ge_None.
  - now rewrite list_lookup_alter_ne, list_lookup_insert_ne.
Qed.

Lemma list_at_insert (st : mixin_store) l v : l < length st -> list_at (<[l := v]> st) l = v.
Proof. intros H. unfold list_at. now rewrite list_lookup_insert_eq. Qed.

(** The loop, when every supplied mixin stands for a reference: it
    leaves in [to_add] the fold of [add_one], and touches no other list. *)
Lemma add_loop_ok w plugins mixins refs to_add :
  Forall2 (fun m r => mixin_ref w plugins m = Ok r) mixins refs ->
  forall st, to_add < length st ->
  add_loop w plugins mixins to_add st
  = (Ok tt, <[to_add := fold_left add_one refs (list_at st to_add)]> st).
Proof.
  induction 1 as [|m r mixins refs Hm _ IH]; intros st Hlt; simpl.
  - now rewrite list_insert_id by now apply list_at_lookup.
  - rewrite Hm. unfold add_one at 2.
    destruct (ref_in r (list_at st to_add)); [now apply IH|].
    rewrite list_append_insert, IH by now rewrite length_insert.
    now rewrite list_at_insert, list_insert_insert_eq.
Qed.

End AddMixins.

Section AddMixinsSpec.

Lemma insert_at_end (st : mixin_store) old new : <[length st := new]> (st ++ [old]) = st ++ [new].
Proof. induction st as [|a st IH]; simpl; [reflexivity|]. now f_equal. Qed.

Lemma list_at_end (st : mixin_store) x : list_at (st ++ [x]) (length st) = x.
Proof.
  unfold list_at. rewrite lookup_app_r by lia. now rewrite Nat.sub_diag.
Qed.

Lemma list_at_old (st : mixin_store) x l : l < length st -> list_at (st ++ [x]) l = list_at st l.
Proof. intros H. unfold list_at. now rewrite lookup_app_l. Qed.

(** [add_mixins] in closed form: a new list object is added at the end
    of the store, and the instance returned has it as its [_mixins]. *)
Lemma add_mixins_ok w plugins (r : instance) mixins refs (st : mixin_store) :
  Forall2 (fun m x => mixin_ref w plugins m = Ok x) mixins refs ->
  add_mixins r mixins plugins w st
  = (Ok (MkInstance (i_head r) (i_tail r) IMPORT_SEP "." (length st) (i_type r)),
     st ++ [list_at st (i_mixins r) ++ appended (list_at st (i_mixins r)) refs]).
Proof.
  intros H. unfold add_mixins, list_copy.
  rewrite (add_loop_ok _ _ _ _ _ H) by (rewrite length_app; simpl; lia).
  now rewrite list_at_end, insert_at_end, fold_add_one.
Qed.

End AddMixinsSpec.

(** C6: when every supplied mixin stands for a reference, [add_mixins]
    returns a new instance whose mixin list is the list of [r] followed by
    the supplied references not already present by value, each once and in
    the order supplied; a list without duplicates stays without
    duplicates; adding the same mixins again leaves the list as it is; and
    the list, head and tail of [r] are what they were. *)
Theorem add_mixins_spec w plugins (r : instance) mixins refs (st : mixin_store) :
  i_mixins r < length st ->
  Forall2 (fun m x => mixin_ref w plugins m = Ok x) mixins refs ->
  exists r' st' added,
    add_mixins r mixins plugins w st = (Ok r', st') /\
    list_at st' (i_mixins r') = list_at st (i_mixins r) ++ added /\
    added `sublist_of` refs /\
    (forall x, x ∈ added -> ref_in x (list_at st (i_mixins r)) = false) /\
    nodup_val added = true /\
    (forall x, x ∈ refs -> ref_in x (list_at st' (i_mixins r')) = true) /\
    (nodup_val (list_at st (i_mixins r)) = true ->
     nodup_val (list_at st' (i_mixins r')) = true) /\
    (exists r'' st'',
       add_mixins r' mixins plugins w st' = (Ok r'', st'') /\
       list_at st'' (i_mixins r'') = list_at st' (i_mixins r')) /\
    i_mixins r' <> i_mixins r /\
    (forall l, l < length st -> st' !! l = st !! l) /\
    snapshot st' r = snapshot st r /\
    i_head r' = i_head r /\ i_tail r' = i_tail r /\ i_type r' = i_type r.
Proof.
  intros Hlt H.
  set (ms := list_at st (i_mixins r)).
  eexists _, _, (appended ms refs).
  split; [apply (add_mixins_ok _ _ _ _ _ _ H)|].
  cbn [i_mixins i_head i_tail i_type]. rewrite list_at_end. fold ms.
  repeat split.
  - apply appended_sublist.
  - apply appended_absent.
  - apply appended_nodup.
  - intros x Hx. now apply appended_covers.
  - intros Hnd. apply nodup_val_app; [exact Hnd | apply appended_nodup |].
    apply appended_absent.
  - eexists _, _. split; [apply (add_mixins_ok _ _ _ _ _ _ H)|].
    cbn [i_mixins]. rewrite !list_at_end.
    rewrite (appended_all_present (ms ++ appended ms refs) refs), app_nil_r; [reflexivity|].
    intros x Hx. now apply appended_covers.
  - lia.
  - intros l Hl. now rewrite lookup_app_l.
  - unfold snapshot. now rewrite list_at_old.
Qed.

Lemma add_mixins_spec_witness :
  let r := MkInstance ["pkg"; "mod"] ["Target"] ":" "." 0 None in
  let st := [[Demo.m1]] in
  let refs := [Demo.m1; Demo.m3; Demo.m3] in
  exists r' st' added,
    add_mixins r [VRef Demo.m1; VStr "pkg.mod:M3"; VRef Demo.m3] None Demo.w0 st
      = (Ok r', st') /\
    list_at st' (i_mixins r') = list_at st (i_mixins r) ++ added /\
    added `sublist_of` refs /\
    (forall x, x ∈ added -> ref_in x (list_at st (i_mixins r)) = false) /\
    nodup_val added = true /\
    (forall x, x ∈ refs -> ref_in x (list_at st' (i_mixins r')) = true) /\
    (nodup_val (list_at st (i_mixins r)) = true ->
     nodup_val (list_at st' (i_mixins r')) = true) /\
    (exists r'' st'',
       add_mixins r' [VRef Demo.m1; VStr "pkg.mod:M3"; VRef Demo.m3] None Demo.w0 st'
         = (Ok r'', st'') /\
       list_at st'' (i_mixins r'') = list_at st' (i_mixins r')) /\
    i_mixins r' <> i_mixins r /\
    (forall l, l < length st -> st' !! l = st !! l) /\
    snapshot st' r = snapshot st r /\
    i_head r' = i_head r /\ i_tail r' = i_tail r /\ i_type r' = i_type r.
Proof.
  apply (add_mixins_spec Demo.w0 None
           (MkInstance ["pkg"; "mod"] ["Target"] ":" "." 0 None)
           [VRef Demo.m1; VStr "pkg.mod:M3"; VRef Demo.m3]
           [Demo.m1; Demo.m3; Demo.m3] [[Demo.m1]]).
  - simpl; lia.
  - do 3 (constructor; [reflexivity|]). constructor.
Defined.

(** The same run, evaluated: [M1] is there already, [M3] is supplied
    twice by value and appended once; the list of the first instance is
    still [[M1]]. *)
Example add_mixins_example :
  let r := MkInstance ["pkg"; "mod"] ["Target"] ":" "." 0 None in
  exists r' st',
    add_mixins r [VRef Demo.m1; VStr "pkg.mod:M3"; VRef Demo.m3] None Demo.w0 [[Demo.m1]]
      = (Ok r', st') /\
    list_at st' (i_mixins r') = [Demo.m1; Demo.m3] /\
    list_at st' (i_mixins r) = [Demo.m1].
Proof. eexists _, _. repeat split. Qed.

(** An argument that is no reference, string or type is a [TypeError]. *)
Example add_mixins_unrecognised :
  fst (add_mixins (MkInstance ["pkg"; "mod"] ["Target"] ":" "." 0 None)
         [VObj 6] None Demo.w0 [[]])
  = Raise (TypeError "Unrecognised mixin type" [VObj 6]).
Proof. reflexivity. Qed.

(** ** Construction from an entry point *)

(** C9, what the code does: [build] on an entry point raises [NameError],
    since the branch calls [ctor.load()] and the parameter is [name]; the
    target is not loaded and no reference is returned. *)
Theorem build_entry_point_raises (w : world) (e : EntryPoint) :
  build w (VEntryPoint e) = Raise (NameError "ctor").
Proof. reflexivity. Qed.

(** The sibling branch, construction from a live type, does what the
    claim says of both: module and name of the type, and the type kept in
    [_type]. *)
Lemma build_type (w : world) (o : oid) (m n : string) :
  is_class w o = true -> get_module w o = Ok m -> get_name w o = Ok n ->
  build w (VObj o) = Ok (Some (MkRef [m] [n] IMPORT_SEP "." [] (Some o))).
Proof. intros Hc Hm Hn. simpl. now rewrite Hc, Hm, Hn. Qed.

(** ** Aliases of string mixins *)

Section Alias.

Lemma filter_none_named recs s :
  Forall (fun x => pl_name x <> s) recs -> filter (fun x => pl_name x = s) recs = [].
Proof.
  induction 1 as [|x recs Hx _ IH]; [reflexivity|].
  rewrite filter_cons. destruct (decide (pl_name x = s)); [contradiction|exact IH].
Qed.

Lemma filter_first_named before x after s :
  Forall (fun y => pl_name y <> s) before -> pl_name x = s ->
  exists rest, filter (fun y => pl_name y = s) (before ++ x :: after) = x :: rest.
Proof.
  intros Hb Hx. rewrite filter_app, (filter_none_named _ _ Hb), filter_cons.
  destruct (decide (pl_name x = s)); [|contradiction]. eexists; reflexivity.
Qed.

End Alias.

(** C10: a string mixin given with a plugins table is looked up as an
    alias in the group ["mixin"]: without that group, or without a record
    of that name in it, the string itself is parsed; otherwise the value
    of the first record of that name is parsed.  No other group is
    looked at, the group ["mixins"] of [to_aliases] included. *)
Theorem add_mixins_alias_group (w : world) (plugins : plugins_t) (s : string) :
  mixin_ref w (Some plugins) (VStr s) = from_alias s "mixin" plugins /\
  (forall self (st : mixin_store),
     add_mixins self [VStr s] (Some plugins) w st
     = match from_alias s "mixin" plugins with
       | Ok ref =>
           (Ok (MkInstance (i_head self) (i_tail self) IMPORT_SEP "." (length st)
                           (i_type self)),
            st ++ [add_one (list_at st (i_mixins self)) ref])
       | Raise e => (Raise e, st ++ [list_at st (i_mixins self)])
       end) /\
  (plugins !! "mixin" = None -> from_alias s "mixin" plugins = _from_str s) /\
  (forall recs,
     plugins !! "mixin" = Some recs -> Forall (fun x => pl_name x <> s) recs ->
     from_alias s "mixin" plugins = _from_str s) /\
  (forall before x after,
     plugins !! "mixin" = Some (before ++ x :: after) ->
     Forall (fun y => pl_name y <> s) before -> pl_name x = s ->
     from_alias s "mixin" plugins = _from_str (pl_value x)) /\
  (forall plugins' : plugins_t,
     plugins' !! "mixin" = plugins !! "mixin" ->
     mixin_ref w (Some plugins') (VStr s) = mixin_ref w (Some plugins) (VStr s)).
Proof.
  repeat split.
  - intros self st. unfold add_mixins, list_copy. cbn [add_loop mixin_ref].
    destruct (from_alias s "mixin" plugins) as [ref|e]; [|reflexivity].
    rewrite list_at_end. unfold add_one.
    destruct (ref_in ref (list_at st (i_mixins self))); [reflexivity|].
    now rewrite list_append_insert, list_at_end, insert_at_end.
  - intros H. unfold from_alias. now rewrite H.
  - intros recs H Hn. unfold from_alias. now rewrite H, filter_none_named.
  - intros before x after H Hb Hx. unfold from_alias. rewrite H.
    destruct (filter_first_named before x after s Hb Hx) as [rest ->]. reflexivity.
  - intros plugins' H. simpl. unfold from_alias. now rewrite H.
Qed.

Lemma add_mixins_alias_group_witness :
  let plugins : plugins_t :=
    {[ "mixin" := [MkPlugin "other" "x.y:Z"; MkPlugin "short" "pkg.mod:M1";
                   MkPlugin "short" "pkg.mod:M3"];
       "mixins" := [MkPlugin "plural" "pkg.mod:M3"] ]} in
  let no_group : plugins_t := {[ "mixins" := [MkPlugin "short" "pkg.mod:M3"] ]} in
  mixin_ref Demo.w0 (Some plugins) (VStr "short") = Ok Demo.m1 /\
  mixin_ref Demo.w0 (Some plugins) (VStr "plural") = _from_str "plural" /\
  mixin_ref Demo.w0 (Some no_group) (VStr "short") = _from_str "short".
Proof.
  intros plugins no_group. split; [|split].
  - destruct (add_mixins_alias_group Demo.w0 plugins "short")
      as (-> & _ & _ & _ & Hfirst & _).
    apply (Hfirst [MkPlugin "other" "x.y:Z"] (MkPlugin "short" "pkg.mod:M1")
                  [MkPlugin "short" "pkg.mod:M3"]).
    + reflexivity.
    + constructor; [discriminate | constructor].
    + reflexivity.
  - destruct (add_mixins_alias_group Demo.w0 plugins "plural")
      as (-> & _ & _ & Hnone & _).
    apply (Hnone [MkPlugin "other" "x.y:Z"; MkPlugin "short" "pkg.mod:M1";
                  MkPlugin "short" "pkg.mod:M3"]).
    + reflexivity.
    + repeat (constructor; [discriminate|]). constructor.
  - destruct (add_mixins_alias_group Demo.w0 no_group "short")
      as (-> & _ & Habsent & _).
    apply Habsent. reflexivity.
Defined.

(** ** Resolution *)

(** Induction on references, through the mixin lists. *)
Lemma JGDVCodeReference_nested_ind (P : JGDVCodeReference -> Prop) :
  (forall h t s ss ms ty, Forall P ms -> P (MkRef h t s ss ms ty)) ->
  forall r, P r.
Proof.
  intros step. fix IH 1. intros [h t s ss ms ty]. apply step.
  revert ms. fix IHms 1. intros [|m ms]; constructor; [apply IH | apply IHms].
Qed.

(** [try_import] is its three stages inside the [try]. *)
Lemma try_import_eq (self : JGDVCodeReference) (ensure : option oid) :
  try_import self ensure
  = try_except
      (curr ← resolve_target self;
       curr ← compose self curr;
       check_ensure self ensure curr)
      (import_handler self).
Proof.
  destruct self as [h t s ss ms ty]. destruct ms; reflexivity.
Qed.

(** A relation between the state before and the state after that is
    reflexive and transitive is kept by [try_import] as soon as
    [import_module] and [type_new], the two operations that write the
    state, keep it. *)
Section Respects.

Variable R : world -> world -> Prop.
Hypothesis R_refl : forall w, R w w.
Hypothesis R_trans : forall a b c, R a b -> R b c -> R a c.

Local Abbreviation respects := (keeps R).

Lemma respects_ret {A} (a : A) : respects (ret a).
Proof. intros w. apply R_refl. Qed.

Lemma respects_raise {A} (e : exn) : respects (@raise A e).
Proof. intros w. apply R_refl. Qed.

Lemma respects_reading {A} (f : world -> result A) : respects (reading f).
Proof. intros w. apply R_refl. Qed.

Lemma respects_bind {A B} (m : M A) (f : A -> M B) :
  respects m -> (forall a, respects (f a)) -> respects (bind m f).
Proof.
  intros Hm Hf w. unfold bind. specialize (Hm w).
  destruct (m w) as [[a|e] w1]; simpl in *; [|exact Hm].
  eapply R_trans; [exact Hm | apply Hf].
Qed.

Lemma respects_try {A} (m : M A) (h : exn -> M A) :
  respects m -> (forall e, respects (h e)) -> respects (try_except m h).
Proof.
  intros Hm Hh w. unfold try_except. specialize (Hm w).
  destruct (m w) as [[a|e] w1]; simpl in *; [exact Hm|].
  eapply R_trans; [exact Hm | apply Hh].
Qed.

Lemma respects_mapM {A B} (f : A -> M B) (l : list A) :
  Forall (fun a => respects (f a)) l -> respects (mapM f l).
Proof.
  induction 1 as [|a l Ha _ IH]; cbn [mapM]; [apply respects_ret|].
  apply respects_bind; [exact Ha|]. intros b.
  apply respects_bind; [exact IH|]. intros bs. apply respects_ret.
Qed.

Lemma respects_walk (names : list string) : forall curr, respects (walk curr names).
Proof.
  induction names as [|n names IH]; intros curr; cbn [walk]; [apply respects_ret|].
  apply respects_bind; [apply respects_reading | apply IH].
Qed.

Lemma respects_check self ensure curr : respects (check_ensure self ensure curr).
Proof.
  unfold check_ensure. destruct ensure as [e|]; [|apply respects_ret].
  apply respects_bind; [apply respects_reading|]. intros [|]; [apply respects_ret|].
  apply respects_bind; [apply respects_reading|]. intros [|]; [apply respects_ret|].
  apply respects_raise.
Qed.

Lemma respects_handler self e : respects (import_handler self e).
Proof. destruct e; apply respects_raise. Qed.

(** What follows a first step keeps the relation from the state that
    step left. *)
Lemma respects_after_bind {A B} (m : M A) (f : A -> M B) :
  (forall a, respects (f a)) -> forall w, R (snd (m w)) (snd (bind m f w)).
Proof.
  intros Hf w. unfold bind. destruct (m w) as [[a|e] w1]; simpl; [apply Hf|apply R_refl].
Qed.

Lemma respects_after_try {A} (m : M A) (h : exn -> M A) :
  (forall e, respects (h e)) -> forall w, R (snd (m w)) (snd (try_except m h w)).
Proof.
  intros Hh w. unfold try_except.
  destruct (m w) as [[a|e] w1]; simpl; [apply R_refl|apply Hh].
Qed.

Hypothesis R_import : forall name, respects (import_module name).
Hypothesis R_type_new : forall name bases, respects (type_new name bases).

Lemma respects_resolve_target self : respects (resolve_target self).
Proof.
  unfold resolve_target. destruct (_type self); [apply respects_ret|].
  apply respects_bind; [apply R_import | intros m; apply respects_walk].
Qed.

Lemma respects_try_import self : forall ensure, respects (try_import self ensure).
Proof.
  induction self as [h t s ss ms ty IH] using JGDVCodeReference_nested_ind.
  intros ensure. rewrite try_import_eq.
  apply respects_try; [|apply respects_handler].
  apply respects_bind; [apply respects_resolve_target|]. intros curr.
  apply respects_bind; [|intros c; apply respects_check].
  unfold compose. cbn [_mixins]. destruct ms as [|m ms]; [apply respects_ret|].
  apply respects_bind.
  - apply respects_mapM. eapply Forall_impl; [exact IH|]. intros a Ha. apply Ha.
  - intros mixins. apply respects_bind; [apply respects_reading|].
    intros name. apply R_type_new.
Qed.

Lemma respects_compose self curr : respects (compose self curr).
Proof.
  unfold compose. destruct (_mixins self) as [|m ms] eqn:E; [apply respects_ret|].
  apply respects_bind.
  - apply respects_mapM, Forall_forall. intros x _. apply respects_try_import.
  - intros mixins. apply respects_bind; [apply respects_reading|].
    intros name. apply R_type_new.
Qed.

Lemma respects_import_mixins ms : respects (import_mixins ms).
Proof.
  apply respects_mapM. apply Forall_forall. intros m _. apply respects_try_import.
Qed.

End Respects.

Section Extends.

Lemma extends_refl w : extends w w.
Proof. repeat split; reflexivity. Qed.

Lemma extends_trans a b c : extends a b -> extends b c -> extends a c.
Proof.
  intros (H1 & H2 & H3 & H4) (K1 & K2 & K3 & K4). repeat split.
  - now transitivity (heap b).
  - now transitivity (import_calls b).
  - now transitivity (executed b).
  - congruence.
Qed.

Lemma import_module_calls name w :
  import_calls (snd (import_module name w)) = import_calls w ++ [name] /\
  heap (snd (import_module name w)) = heap w.
Proof.
  unfold import_module.
  destruct (String.eqb name ""); [split; reflexivity|].
  destruct (String.prefix "." name); [split; reflexivity|].
  destruct (sys_modules w !! name); [split; reflexivity|].
  destruct (finder w !! name); split; reflexivity.
Qed.

Lemma import_module_extends name w : extends w (snd (import_module name w)).
Proof.
  unfold import_module.
  destruct (String.eqb name "");
    [repeat split; simpl; try reflexivity; now apply prefix_app_r|].
  destruct (String.prefix "." name);
    [repeat split; simpl; try reflexivity; now apply prefix_app_r|].
  destruct (sys_modules w !! name);
    [repeat split; simpl; try reflexivity; now apply prefix_app_r|].
  destruct (finder w !! name);
    repeat split; simpl; try reflexivity; now apply prefix_app_r.
Qed.

(** What [type()] returns when it returns: a new object at the end of
    the heap, a class with the name and the bases given. *)
Lemma type_new_ok name bases w c w' :
  type_new name bases w = (Ok c, w') ->
  c = length (heap w) /\
  exists lin meta,
    c3_merge (List.map (mro_list w) bases ++ [bases]) = Some lin /\
    heap w' = heap w ++ [MkObj KClass (Some name) (Some THIS_MODULE) ∅ bases
                               (c :: lin) meta] /\
    finder w' = finder w /\ sys_modules w' = sys_modules w /\
    executed w' = executed w /\ import_calls w' = import_calls w.
Proof.
  unfold type_new. destruct (forallb (is_class w) bases); [|discriminate].
  destruct (c3_merge _) as [lin|]; [|discriminate].
  intros H; inversion H; subst. split; [reflexivity|].
  eexists _, _. repeat split.
Qed.

Lemma type_new_extends name bases w : extends w (snd (type_new name bases w)).
Proof.
  destruct (type_new name bases w) as [[c|e] w'] eqn:E; simpl.
  - apply type_new_ok in E as (_ & lin & meta & _ & Hh & Hf & _ & He & Hi).
    repeat split; rewrite ?Hh, ?He, ?Hi; try reflexivity; try assumption.
    now apply prefix_app_r.
  - unfold type_new in E. destruct (forallb _ _).
    + destruct (c3_merge _); inversion E; subst. apply extends_refl.
    + inversion E; subst. apply extends_refl.
Qed.


Lemma import_mixins_extends ms w : extends w (snd (import_mixins ms w)).
Proof.
  apply (respects_import_mixins extends extends_refl extends_trans
           import_module_extends type_new_extends).
Qed.

End Extends.

(** Reading the monad backwards: what a successful run is made of. *)
Section Inversion.

Lemma bind_ok {A B} (m : M A) (f : A -> M B) w b w' :
  bind m f w = (Ok b, w') <->
  exists a w1, m w = (Ok a, w1) /\ f a w1 = (Ok b, w').
Proof.
  unfold bind. split.
  - destruct (m w) as [[a|e] w1]; [|discriminate]. intros H. now exists a, w1.
  - intros (a & w1 & -> & H). exact H.
Qed.

Lemma import_handler_raises self e w :
  exists e', import_handler self e w = (Raise e', w).
Proof. destruct e; eexists; reflexivity. Qed.

Lemma try_except_ok self (m : M oid) w a w' :
  try_except m (import_handler self) w = (Ok a, w') <-> m w = (Ok a, w').
Proof.
  unfold try_except. destruct (m w) as [[x|e] w1]; [tauto|].
  destruct (import_handler_raises self e w1) as [e' ->].
  split; discriminate.
Qed.

Lemma check_ensure_ok self ensure curr w c w' :
  check_ensure self ensure curr w = (Ok c, w') -> c = curr /\ w' = w.
Proof.
  unfold check_ensure. destruct ensure as [e|]; [|intros H; now inversion H].
  unfold mbind, M_bind, bind, reading, ret, raise.
  destruct (isinstance w curr e) as [[|]|]; try discriminate;
    [intros H; now inversion H|].
  destruct (issubclass w curr e) as [[|]|]; try discriminate.
  intros H; now inversion H.
Qed.

(** A successful [try_import] is a successful run of its three stages. *)
Lemma try_import_ok self ensure w c w' :
  try_import self ensure w = (Ok c, w') <->
  exists t w1,
    resolve_target self w = (Ok t, w1) /\
    compose self t w1 = (Ok c, w') /\
    check_ensure self ensure c w' = (Ok c, w').
Proof.
  rewrite try_import_eq, try_except_ok. unfold mbind, M_bind.
  rewrite bind_ok. split.
  - intros (t & w1 & Ht & H). apply bind_ok in H as (c0 & w2 & Hc & Hk).
    destruct (check_ensure_ok _ _ _ _ _ _ Hk) as [-> ->].
    now exists t, w1.
  - intros (t & w1 & Ht & Hc & Hk). exists t, w1. split; [exact Ht|].
    apply bind_ok. now exists c, w'.
Qed.

(** With mixins, the composite is made by [type()] from the resolved
    mixins and the target. *)
Lemma compose_ok self t w c w' :
  _mixins self <> [] ->
  (compose self t w = (Ok c, w') <->
   exists ms w1 n,
     import_mixins (_mixins self) w = (Ok ms, w1) /\
     get_name w1 t = Ok n /\
     type_new ("DootGenerated:" +:+ n) (ms ++ [t]) w1 = (Ok c, w')).
Proof.
  intros Hne. unfold compose. destruct (_mixins self) as [|m l]; [congruence|].
  unfold mbind, M_bind. rewrite bind_ok. split.
  - intros (ms & w1 & Hm & H). apply bind_ok in H as (n & w2 & Hn & Ht).
    unfold reading in Hn. inversion Hn; subst. now exists ms, w2, n.
  - intros (ms & w1 & n & Hm & Hn & Ht). exists ms, w1. split; [exact Hm|].
    apply bind_ok. exists n, w1. split; [|exact Ht]. unfold reading. now rewrite Hn.
Qed.

End Inversion.

(** ** The linearisation *)

Section Linearisation.

Lemma filter_nonempty_nil seqs :
  List.filter nonempty seqs = [] -> Forall (fun s => s = []) seqs.
Proof.
  induction seqs as [|s seqs IH]; simpl; intros H; [constructor|].
  destruct s; simpl in H; [|discriminate]. constructor; auto.
Qed.

Lemma filter_nonempty_in s seqs :
  In s seqs -> s <> [] -> In s (List.filter nonempty seqs).
Proof.
  intros Hin Hne. apply List.filter_In. split; [exact Hin|].
  destruct s; [congruence|reflexivity].
Qed.

Lemma drop_head_sublist h s lin :
  drop_head h s `sublist_of` lin -> s `sublist_of` h :: lin.
Proof.
  destruct s as [|x t]; simpl; [intros _; apply sublist_nil_l|].
  destruct (Nat.eqb_spec x h) as [->|Hne]; intros H.
  - now apply sublist_skip.
  - now apply sublist_cons.
Qed.

(** The merge keeps the order of every sequence it is given. *)
Lemma c3_merge_fuel_sublist fuel : forall seqs lin,
  c3_merge_fuel fuel seqs = Some lin ->
  Forall (fun s => s `sublist_of` lin) seqs.
Proof.
  induction fuel as [|fuel IH]; intros seqs lin; simpl;
    destruct (List.filter nonempty seqs) as [|s0 F] eqn:EF.
  - intros H; inversion H; subst.
    eapply Forall_impl; [apply filter_nonempty_nil, EF|].
    intros s ->. apply sublist_nil_l.
  - discriminate.
  - intros H; inversion H; subst.
    eapply Forall_impl; [apply filter_nonempty_nil, EF|].
    intros s ->. apply sublist_nil_l.
  - destruct (c3_candidate (s0 :: F) (s0 :: F)) as [h|]; [|discriminate].
    destruct (c3_merge_fuel fuel (List.map (drop_head h) (s0 :: F))) as [lin'|] eqn:E;
      [|discriminate].
    intros H; inversion H; subst. apply IH in E.
    apply Forall_forall. intros s Hs.
    destruct s as [|x t]; [apply sublist_nil_l|].
    apply drop_head_sublist.
    rewrite Forall_forall in E. apply E.
    apply list_elem_of_In, in_map. rewrite <- EF.
    apply filter_nonempty_in; [now apply list_elem_of_In | discriminate].
Qed.

Lemma c3_merge_sublist seqs lin s :
  c3_merge seqs = Some lin -> In s seqs -> s `sublist_of` lin.
Proof.
  intros H Hs. apply c3_merge_fuel_sublist in H.
  rewrite Forall_forall in H. now apply H, list_elem_of_In.
Qed.

End Linearisation.

(** C2: a reference with mixins whose target resolves to [t], whose
    mixins resolve, each by its own [try_import], to [ms] in list order,
    and whose bases [type()] accepts, resolves to a new type: an object
    that was not in the heap, a class named after the target, with the
    bases [ms ++ [t]], the mixins in their order and the target last; and
    in its mro the mixins come before the target, in that order. *)
Theorem try_import_composite (self : JGDVCodeReference) (w w1 w2 : world)
    (t : oid) (ms : list oid) (n : string) (lin : list oid) :
  _mixins self <> [] ->
  resolve_target self w = (Ok t, w1) ->
  import_mixins (_mixins self) w1 = (Ok ms, w2) ->
  get_name w2 t = Ok n ->
  forallb (is_class w2) (ms ++ [t]) = true ->
  c3_merge (List.map (mro_list w2) (ms ++ [t]) ++ [ms ++ [t]]) = Some lin ->
  exists c w3 ob,
    try_import self None w = (Ok c, w3) /\
    heap w2 !! c = None /\
    heap w3 !! c = Some ob /\
    ob_kind ob = KClass /\
    ob_name ob = Some ("DootGenerated:" +:+ n) /\
    ob_bases ob = ms ++ [t] /\
    ob_mro ob = c :: lin /\
    (ms ++ [t]) `sublist_of` lin.
Proof.
  intros Hne Ht Hm Hn Hc Hlin.
  set (c := length (heap w2)).
  assert (Hnew : type_new ("DootGenerated:" +:+ n) (ms ++ [t]) w2
          = (Ok c, MkWorld (heap w2 ++ [MkObj KClass (Some ("DootGenerated:" +:+ n))
                                          (Some THIS_MODULE) ∅ (ms ++ [t]) (c :: lin)
                                          match ms ++ [t] with
                                          | b :: _ => match heap w2 !! b with
                                                      | Some ob => ob_class ob
                                                      | None => 0
                                                      end
                                          | [] => 0
                                          end])
                           (finder w2) (sys_modules w2) (executed w2) (import_calls w2))).
  { unfold type_new. now rewrite Hc, Hlin. }
  eexists c, _, _. split; [|split; [|split]].
  - apply try_import_ok. exists t, w1. split; [exact Ht|]. split; [|reflexivity].
    apply compose_ok; [exact Hne|]. exists ms, w2, n. split; [exact Hm|].
    split; [exact Hn | exact Hnew].
  - apply lookup_ge_None. unfold c. lia.
  - cbn [heap]. rewrite lookup_app_r by (unfold c; lia).
    unfold c. rewrite Nat.sub_diag. reflexivity.
  - repeat split. eapply c3_merge_sublist; [exact Hlin|].
    apply in_or_app. right. now left.
Qed.

(** Conversely, whatever [try_import] returns for a reference with mixins
    is such a type. *)
Lemma try_import_composite_inv (self : JGDVCodeReference) ensure w c w3 :
  _mixins self <> [] ->
  try_import self ensure w = (Ok c, w3) ->
  exists t w1 ms w2 ob,
    resolve_target self w = (Ok t, w1) /\
    import_mixins (_mixins self) w1 = (Ok ms, w2) /\
    c = length (heap w2) /\
    heap w3 = heap w2 ++ [ob] /\
    ob_kind ob = KClass /\ ob_bases ob = ms ++ [t].
Proof.
  intros Hne H. apply try_import_ok in H as (t & w1 & Ht & Hc & _).
  apply compose_ok in Hc as (ms & w2 & n & Hm & Hn & Hty); [|exact Hne].
  apply type_new_ok in Hty as (-> & lin & meta & _ & Hh & _).
  exists t, w1, ms, w2. eexists. repeat split; try eassumption; reflexivity.
Qed.

Lemma try_import_composite_witness :
  let self := new_ref (ArgList ["pkg"; "mod"]) (ArgList ["Target"])
                      [Demo.m1; Demo.m3] None in
  let w1 := snd (resolve_target self Demo.w0) in
  let w2 := snd (import_mixins (_mixins self) w1) in
  exists c w3 ob,
    try_import self None Demo.w0 = (Ok c, w3) /\
    heap w2 !! c = None /\
    heap w3 !! c = Some ob /\
    ob_kind ob = KClass /\
    ob_name ob = Some ("DootGenerated:" +:+ "Target") /\
    ob_bases ob = [4; 9] ++ [3] /\
    ob_mro ob = c :: [4; 9; 3; 0] /\
    ([4; 9] ++ [3]) `sublist_of` [4; 9; 3; 0].
Proof.
  intros self w1 w2.
  apply (try_import_composite self Demo.w0 w1 w2 3 [4; 9] "Target" [4; 9; 3; 0]).
  - discriminate.
  - vm_compute. reflexivity.
  - vm_compute. reflexivity.
  - vm_compute. reflexivity.
  - vm_compute. reflexivity.
  - vm_compute. reflexivity.
Defined.

(** The example of the spec, evaluated: the reference [pkg.mod:Target]
    with the mixins [[M1; M3]] resolves to a new class with the bases
    [(M1, M3, Target)]. *)
Example try_import_composite_example :
  let self := new_ref (ArgList ["pkg"; "mod"]) (ArgList ["Target"])
                      [Demo.m1; Demo.m3] None in
  fst (try_import self None Demo.w0) = Ok 10 /\
  ob_bases <$> heap (snd (try_import self None Demo.w0)) !! 10 = Some [4; 9; 3] /\
  ob_mro <$> heap (snd (try_import self None Demo.w0)) !! 10 = Some [10; 4; 9; 3; 0] /\
  fst (try_import Demo.target None Demo.w0) = Ok 3.
Proof. vm_compute. repeat split. Qed.

(** ** No cache is written *)

Section Caching.

Lemma prefix_calls (l l' : list string) x :
  (l ++ [x]) `prefix_of` l' -> exists more, l' = l ++ x :: more.
Proof. intros [k ->]. exists k. now rewrite <- app_assoc. Qed.

Lemma cached_plain self t ensure w :
  _type self = Some t -> _mixins self = [] ->
  try_import self None w = (Ok t, w) /\ snd (try_import self ensure w) = w.
Proof.
  intros Ht Hm. rewrite !try_import_eq.
  unfold resolve_target, compose. rewrite Ht, Hm. split; [reflexivity|].
  unfold try_except, mbind, M_bind, bind, ret. cbn [fst snd].
  destruct (check_ensure self ensure t w) as [[c|e] w'] eqn:E.
  - now apply check_ensure_ok in E as [_ ->].
  - destruct (import_handler_raises self e w') as [e' ->]. cbn [snd].
    revert E. unfold check_ensure. destruct ensure as [en|]; [|discriminate].
    unfold mbind, M_bind, bind, reading, ret, raise.
    destruct (isinstance w t en) as [[|]|];
      [discriminate | | intros H; now inversion H].
    destruct (issubclass w t en) as [[|]|]; [discriminate | |];
      intros H; now inversion H.
Qed.

Lemma uncached_imports self ensure w :
  _type self = None ->
  exists more,
    import_calls (snd (try_import self ensure w))
    = import_calls w ++ module self :: more.
Proof.
  intros Ht. apply prefix_calls.
  destruct (import_module_calls (module self) w) as [<- _].
  rewrite try_import_eq. unfold resolve_target. rewrite Ht.
  unfold mbind, M_bind.
  set (im := import_module (module self)).
  set (f := fun mod_ => walk mod_ (tail self)).
  set (g := fun curr : oid =>
              bind (compose self curr) (fun curr0 => check_ensure self ensure curr0)).
  assert (H1 : extends (snd (im w)) (snd (bind im f w))).
  { apply (respects_after_bind extends extends_refl). intros a.
    apply (respects_walk extends extends_refl extends_trans). }
  assert (H2 : extends (snd (bind im f w)) (snd (bind (bind im f) g w))).
  { apply (respects_after_bind extends extends_refl). intros a. unfold g.
    apply (respects_bind extends extends_trans).
    - apply (respects_compose extends extends_refl extends_trans
               import_module_extends type_new_extends).
    - intros c. apply (respects_check extends extends_refl extends_trans). }
  assert (H3 : extends (snd (bind (bind im f) g w))
                       (snd (try_except (bind (bind im f) g) (import_handler self) w))).
  { apply (respects_after_try extends extends_refl). intros e.
    apply (respects_handler extends extends_refl). }
  pose proof (extends_trans _ _ _ (extends_trans _ _ _ H1 H2) H3) as (_ & H & _).
  exact H.
Qed.

Lemma composite_fresh self e1 e2 w c1 w1 c2 w2 :
  _mixins self <> [] ->
  try_import self e1 w = (Ok c1, w1) ->
  try_import self e2 w1 = (Ok c2, w2) ->
  c1 <> c2.
Proof.
  intros Hne H1 H2.
  apply try_import_composite_inv in H1
    as (t & wa & ms & wb & ob & _ & _ & -> & Hh1 & _); [|exact Hne].
  apply try_import_composite_inv in H2
    as (t' & wa' & ms' & wb' & ob' & Hr & Hm & -> & _); [|exact Hne].
  pose proof (respects_resolve_target extends extends_refl extends_trans
                import_module_extends self w1) as (Ha & _).
  pose proof (import_mixins_extends (_mixins self) wa') as (Hb & _).
  rewrite Hr in Ha. rewrite Hm in Hb. cbn [snd] in Ha, Hb.
  apply prefix_length in Ha, Hb. rewrite Hh1, length_app in Ha. simpl in Ha. lia.
Qed.

End Caching.

(** C1, as the code has it: a reference whose [_type] was set at
    construction and which has no mixins returns that object at every
    call, with no import and the state left as it was.  [try_import]
    does not store what it resolves: a reference without [_type] calls
    [import_module] again at every call, and a reference with mixins
    returns at a second call a type that is not the one of the first. *)
Theorem try_import_caching (self : JGDVCodeReference) :
  (forall t ensure w,
     _type self = Some t -> _mixins self = [] ->
     try_import self None w = (Ok t, w) /\ snd (try_import self ensure w) = w) /\
  (forall ensure w,
     _type self = None ->
     exists more,
       import_calls (snd (try_import self ensure w))
       = import_calls w ++ module self :: more) /\
  (forall e1 e2 w c1 w1 c2 w2,
     _mixins self <> [] ->
     try_import self e1 w = (Ok c1, w1) ->
     try_import self e2 w1 = (Ok c2, w2) ->
     c1 <> c2).
Proof.
  split; [|split].
  - intros t ensure w. apply cached_plain.
  - intros ensure w. apply uncached_imports.
  - apply composite_fresh.
Qed.

Lemma try_import_caching_witness :
  let cached := MkRef ["pkg.mod"] ["Target"] ":" "." [] (Some 3) in
  let mixed := new_ref (ArgList ["pkg"; "mod"]) (ArgList ["Target"]) [Demo.m1] None in
  try_import cached None Demo.w0 = (Ok 3, Demo.w0) /\
  (exists more,
     import_calls (snd (try_import Demo.target None Demo.w0)) = [] ++ "pkg.mod" :: more) /\
  10 <> 11.
Proof.
  intros cached mixed. split; [|split].
  - destruct (try_import_caching cached) as (H & _).
    apply (H 3 None Demo.w0); reflexivity.
  - destruct (try_import_caching Demo.target) as (_ & H & _).
    apply (H None Demo.w0). reflexivity.
  - destruct (try_import_caching mixed) as (_ & _ & H).
    apply (H None None Demo.w0 10 (snd (try_import mixed None Demo.w0)) 11
             (snd (try_import mixed None (snd (try_import mixed None Demo.w0))))).
    + discriminate.
    + vm_compute. reflexivity.
    + vm_compute. reflexivity.
Defined.

(** C1 as stated fails.  The reference [pkg.mod:Target] with the mixin
    [M1], resolved twice, gives two types; and the plain reference
    [pkg.mod:Target], resolved twice, calls [import_module] twice (the
    module body runs once, [sys.modules] having it the second time). *)
Lemma try_import_twice_differs :
  let r := new_ref (ArgList ["pkg"; "mod"]) (ArgList ["Target"]) [Demo.m1] None in
  let w1 := snd (try_import r None Demo.w0) in
  let v1 := snd (try_import Demo.target None Demo.w0) in
  fst (try_import r None Demo.w0) = Ok 10 /\
  fst (try_import r None w1) = Ok 11 /\
  fst (try_import r None w1) <> fst (try_import r None Demo.w0) /\
  fst (try_import Demo.target None Demo.w0) = Ok 3 /\
  import_calls v1 = ["pkg.mod"] /\
  import_calls (snd (try_import Demo.target None v1)) = ["pkg.mod"; "pkg.mod"] /\
  executed (snd (try_import Demo.target None v1)) = ["pkg.mod"].
Proof. vm_compute. repeat split. discriminate. Qed.

(** ** Failures of resolution *)

Section Failures.

Lemma check_ensure_mismatch self e c w :
  isinstance w c e = Ok false -> issubclass w c e = Ok false ->
  check_ensure self (Some e) c w
  = (Raise (ImportError "Imported Code Reference is not of correct type"
              [VRef self; VObj e]), w).
Proof.
  intros Hi Hs. unfold check_ensure, mbind, M_bind, bind, reading, raise.
  now rewrite Hi, Hs.
Qed.

End Failures.

(** C5, as the code has it: when the module of an unresolved reference is
    not found, the error is [ImportError("Module can't be found",
    str(self))], with the rendered reference; when an attribute of the
    path is missing, it is [ImportError("Attempted to import %s but
    failed", str(self))]; when [ensure] is given and the resolved class
    is neither an instance nor a subclass of it, it is
    [ImportError("Imported Code Reference is not of correct type", self,
    ensure)].  Each is raised in the state the failing step left: nothing
    is tried again. *)
Theorem try_import_failures (self : JGDVCodeReference) (ensure : option oid) (w : world) :
  (forall n w1,
     _type self = None ->
     import_module (module self) w = (Raise (ModuleNotFoundError n), w1) ->
     try_import self ensure w
     = (Raise (ImportError "Module can't be found" [VStr (str self)]), w1)) /\
  (forall m w1 o a w2,
     _type self = None ->
     import_module (module self) w = (Ok m, w1) ->
     walk m (tail self) w1 = (Raise (AttributeError o a), w2) ->
     try_import self ensure w
     = (Raise (ImportError "Attempted to import %s but failed" [VStr (str self)]), w2)) /\
  (forall e t w1 c w2,
     ensure = Some e ->
     resolve_target self w = (Ok t, w1) ->
     compose self t w1 = (Ok c, w2) ->
     isinstance w2 c e = Ok false ->
     issubclass w2 c e = Ok false ->
     try_import self ensure w
     = (Raise (ImportError "Imported Code Reference is not of correct type"
                 [VRef self; VObj e]), w2)).
Proof.
  split; [|split].
  - intros n w1 Ht Him. rewrite try_import_eq. unfold resolve_target. rewrite Ht.
    unfold try_except, mbind, M_bind, bind. now rewrite Him.
  - intros m w1 o a w2 Ht Him Hw. rewrite try_import_eq. unfold resolve_target.
    rewrite Ht. unfold try_except, mbind, M_bind, bind. now rewrite Him, Hw.
  - intros e t w1 c w2 -> Ht Hc Hi Hs. rewrite try_import_eq.
    unfold try_except, mbind, M_bind, bind.
    now rewrite Ht, Hc, (check_ensure_mismatch self e c w2 Hi Hs).
Qed.

Lemma try_import_failures_witness :
  let nomod := new_ref (ArgList ["pkg"; "nomod"]) (ArgList ["Target"]) [] None in
  let noattr := new_ref (ArgList ["pkg"; "mod"]) (ArgList ["Target"; "missing"]) [] None in
  fst (try_import nomod None Demo.w0)
    = Raise (ImportError "Module can't be found" [VStr "pkg.nomod:Target"]) /\
  fst (try_import noattr None Demo.w0)
    = Raise (ImportError "Attempted to import %s but failed"
               [VStr "pkg.mod:Target.missing"]) /\
  fst (try_import Demo.target (Some 4) Demo.w0)
    = Raise (ImportError "Imported Code Reference is not of correct type"
               [VRef Demo.target; VObj 4]).
Proof.
  intros nomod noattr. split; [|split].
  - destruct (try_import_failures nomod None Demo.w0) as (H & _).
    rewrite (H "pkg.nomod" (snd (import_module "pkg.nomod" Demo.w0)));
      [reflexivity | reflexivity | vm_compute; reflexivity].
  - destruct (try_import_failures noattr None Demo.w0) as (_ & H & _).
    rewrite (H 2 (snd (import_module "pkg.mod" Demo.w0)) 3 "missing"
               (snd (import_module "pkg.mod" Demo.w0)));
      [reflexivity | reflexivity | vm_compute; reflexivity | vm_compute; reflexivity].
  - destruct (try_import_failures Demo.target (Some 4) Demo.w0) as (_ & _ & H).
    rewrite (H 4 3 (snd (import_module "pkg.mod" Demo.w0)) 3
               (snd (import_module "pkg.mod" Demo.w0)));
      [reflexivity | reflexivity | vm_compute; reflexivity | vm_compute; reflexivity
      | vm_compute; reflexivity | vm_compute; reflexivity].
Defined.

(** C5 as stated fails: the error for a module that is not found carries
    the rendered reference, [pkg.nomod:Target], as the error for a missing
    attribute does, and not the module [pkg.nomod]. *)
Lemma try_import_module_error_names_reference :
  let nomod := new_ref (ArgList ["pkg"; "nomod"]) (ArgList ["Target"]) [] None in
  module nomod = "pkg.nomod" /\
  fst (try_import nomod None Demo.w0)
    = Raise (ImportError "Module can't be found" [VStr "pkg.nomod:Target"]) /\
  fst (try_import nomod None Demo.w0)
    <> Raise (ImportError "Module can't be found" [VStr (module nomod)]).
Proof. vm_compute. repeat split. discriminate. Qed.

(** A resolved object that is not a class, checked against [ensure]:
    [issubclass] raises [TypeError], which no [except] clause of
    [try_import] catches. *)
Example try_import_ensure_not_a_class :
  fst (try_import Demo.helper (Some 3) Demo.w0)
  = Raise (TypeError "issubclass() arg 1 must be a class" [VObj 6]).
Proof. vm_compute. reflexivity. Qed.

(** ** More on the linearisation: its members and their uniqueness *)

Section LinearisationMembers.

Lemma oid_in_spec x l : oid_in x l = true <-> x ∈ l.
Proof.
  unfold oid_in. rewrite existsb_exists. split.
  - intros (y & Hy & E). apply Nat.eqb_eq in E. subst. now apply list_elem_of_In.
  - intros H. exists x. split; [now apply list_elem_of_In | apply Nat.eqb_refl].
Qed.

Lemma c3_candidate_spec all rest h :
  c3_candidate all rest = Some h ->
  (exists t, In (h :: t) rest) /\
  (forall s, In s all -> h ∉ List.tl s).
Proof.
  induction rest as [|s rest IH]; simpl; [discriminate|].
  destruct s as [|x t].
  - intros H. destruct (IH H) as ((t' & Ht') & Hall). split; [|exact Hall].
    exists t'. now right.
  - destruct (existsb (fun s => oid_in x (List.tl s)) all) eqn:E.
    + intros H. destruct (IH H) as ((t' & Ht') & Hall). split; [|exact Hall].
      exists t'. now right.
    + intros H; inversion H; subst. split; [exists t; now left|].
      intros s Hs Hin. apply oid_in_spec in Hin.
      assert (existsb (fun s => oid_in h (List.tl s)) all = true); [|congruence].
      apply existsb_exists. now exists s.
Qed.

Lemma drop_head_subseteq h s x : x ∈ drop_head h s -> x ∈ s.
Proof.
  destruct s as [|y t]; simpl; [tauto|].
  destruct (Nat.eqb y h); [apply list_elem_of_further | tauto].
Qed.

Lemma drop_head_gone h s : h ∉ List.tl s -> h ∉ drop_head h s.
Proof.
  destruct s as [|y t]; simpl; [intros _ H; inversion H|].
  destruct (Nat.eqb_spec y h) as [->|Hne]; [tauto|].
  intros Ht H. apply elem_of_cons in H as [->|H]; [congruence|contradiction].
Qed.

Lemma filter_nonempty_incl s seqs : In s (List.filter nonempty seqs) -> In s seqs.
Proof. intros H. now apply List.filter_In in H as [H _]. Qed.

(** Every member of the linearisation is a member of a sequence merged. *)
Lemma c3_merge_fuel_members fuel : forall seqs lin x,
  c3_merge_fuel fuel seqs = Some lin -> x ∈ lin -> exists s, In s seqs /\ x ∈ s.
Proof.
  induction fuel as [|fuel IH]; intros seqs lin x; simpl;
    destruct (List.filter nonempty seqs) as [|s0 F] eqn:EF;
    try discriminate; try (intros H Hx; inversion H; subst; now inversion Hx).
  destruct (c3_candidate (s0 :: F) (s0 :: F)) as [h|] eqn:Ec; [|discriminate].
  destruct (c3_merge_fuel fuel (List.map (drop_head h) (s0 :: F))) as [lin'|] eqn:E;
    [|discriminate].
  intros H Hx; inversion H; subst.
  apply elem_of_cons in Hx as [->|Hx].
  - destruct (c3_candidate_spec _ _ _ Ec) as ((t & Ht) & _).
    exists (h :: t). split; [|now left].
    apply filter_nonempty_incl. now rewrite EF.
  - destruct (IH _ _ _ E Hx) as (s' & Hs' & Hxs').
    apply in_map_iff in Hs' as (s & <- & Hs).
    exists s. split; [|now apply drop_head_subseteq in Hxs'].
    apply filter_nonempty_incl. now rewrite EF.
Qed.

(** The linearisation repeats nothing. *)
Lemma c3_merge_fuel_nodup fuel : forall seqs lin,
  c3_merge_fuel fuel seqs = Some lin -> NoDup lin.
Proof.
  induction fuel as [|fuel IH]; intros seqs lin; simpl;
    destruct (List.filter nonempty seqs) as [|s0 F] eqn:EF;
    try discriminate; try (intros H; inversion H; subst; constructor).
  destruct (c3_candidate (s0 :: F) (s0 :: F)) as [h|] eqn:Ec; [|discriminate].
  destruct (c3_merge_fuel fuel (List.map (drop_head h) (s0 :: F))) as [lin'|] eqn:E;
    [|discriminate].
  intros H; inversion H; subst. constructor; [|now apply IH in E].
  intros Hin. destruct (c3_merge_fuel_members _ _ _ _ E Hin) as (s' & Hs' & Hh).
  apply in_map_iff in Hs' as (s & <- & Hs).
  destruct (c3_candidate_spec _ _ _ Ec) as (_ & Hall).
  now apply (drop_head_gone h s (Hall s Hs)).
Qed.

End LinearisationMembers.

(** Mixins that [type()] cannot linearise, here [M1] before its subclass
    [M2]: the [TypeError] of [type()] goes on to the caller as well. *)
Example try_import_mro_conflict :
  fst (try_import (new_ref (ArgList ["pkg"; "mod"]) (ArgList ["Target"])
                           [Demo.m1; Demo.m2] None) None Demo.w0)
  = Raise (TypeError
             "Cannot create a consistent method resolution order (MRO) for bases"
             [VObj 4; VObj 5; VObj 3]).
Proof. vm_compute. reflexivity. Qed.

(** ** Well-formed heaps stay well-formed *)

Section WellFormed.

Lemma is_class_lookup w y :
  is_class w y = true <-> exists ob, heap w !! y = Some ob /\ ob_kind ob = KClass.
Proof.
  unfold is_class. destruct (heap w !! y) as [ob|]; split.
  - destruct (ob_kind ob) eqn:E; try discriminate. intros _. now exists ob.
  - intros (ob' & H & Hk). inversion H; subst. now rewrite Hk.
  - discriminate.
  - intros (ob' & H & _). discriminate.
Qed.

Lemma mro_list_class w y ob :
  heap w !! y = Some ob -> ob_kind ob = KClass -> mro_list w y = ob_mro ob.
Proof. intros H Hk. unfold mro_list, mro. now rewrite H, Hk. Qed.

Lemma mro_class w y : is_class w y = true -> mro w y = Ok (mro_list w y).
Proof.
  intros H. apply is_class_lookup in H as (ob & H & Hk).
  unfold mro_list, mro. now rewrite H, Hk.
Qed.

(** A class stays the class it was when objects are added to the heap. *)
Lemma class_kept w w' y :
  heap w `prefix_of` heap w' -> is_class w y = true ->
  is_class w' y = true /\ mro_list w' y = mro_list w y.
Proof.
  intros [k Hk] H. apply is_class_lookup in H as (ob & H & Hc).
  assert (H' : heap w' !! y = Some ob) by (rewrite Hk; now apply lookup_app_l_Some).
  split.
  - apply is_class_lookup. now exists ob.
  - now rewrite (mro_list_class w' y ob H' Hc), (mro_list_class w y ob H Hc).
Qed.

Lemma wf_class_kept w w' c ob :
  heap w `prefix_of` heap w' -> wf_class w c ob -> wf_class w' c ob.
Proof.
  intros Hp (Hn & Hm & Hh & Hd & Hall). repeat split; try assumption.
  eapply Forall_impl; [exact Hall|]. intros y [Hy Hs].
  destruct (class_kept w w' y Hp Hy) as [Hy' ->]. now split.
Qed.

Lemma wf_same_heap w w' : heap w' = heap w -> wf_world w -> wf_world w'.
Proof.
  intros Hh Hw c ob Hl Hk. rewrite Hh in Hl.
  apply (wf_class_kept w w'); [now rewrite Hh | now apply Hw].
Qed.

Lemma wf_self w y : wf_world w -> is_class w y = true -> y ∈ mro_list w y.
Proof.
  intros Hw H. apply is_class_lookup in H as (ob & H & Hk).
  rewrite (mro_list_class w y ob H Hk).
  destruct (Hw y ob H Hk) as (_ & _ & Hh & _).
  destruct (ob_mro ob); inversion Hh; subst. now left.
Qed.

Lemma wf_closed w y x :
  wf_world w -> x ∈ mro_list w y ->
  is_class w x = true /\ mro_list w x ⊆ mro_list w y.
Proof.
  intros Hw Hx. destruct (is_class w y) eqn:Hy.
  - apply is_class_lookup in Hy as (ob & H & Hk).
    rewrite (mro_list_class w y ob H Hk) in *.
    destruct (Hw y ob H Hk) as (_ & _ & _ & _ & Hall).
    rewrite Forall_forall in Hall. now apply Hall.
  - unfold mro_list, mro, is_class in *. destruct (heap w !! y) as [ob|].
    + destruct (ob_kind ob); try discriminate; inversion Hx.
    + inversion Hx.
Qed.

Lemma wf_nodup w y : wf_world w -> NoDup (mro_list w y).
Proof.
  intros Hw. destruct (is_class w y) eqn:Hy.
  - apply is_class_lookup in Hy as (ob & H & Hk).
    rewrite (mro_list_class w y ob H Hk). now destruct (Hw y ob H Hk) as (_ & _ & _ & Hd & _).
  - unfold mro_list, mro, is_class in *. destruct (heap w !! y) as [ob|].
    + destruct (ob_kind ob); try discriminate; constructor.
    + constructor.
Qed.

Lemma wf_named w y :
  wf_world w -> is_class w y = true ->
  exists m n, get_module w y = Ok m /\ get_name w y = Ok n.
Proof.
  intros Hw H. apply is_class_lookup in H as (ob & H & Hk).
  destruct (Hw y ob H Hk) as ([n Hn] & [m Hm] & _).
  exists m, n. unfold get_module, get_name. rewrite H. simpl. now rewrite Hn, Hm.
Qed.

Lemma type_new_bases name bases w c w' :
  type_new name bases w = (Ok c, w') -> forallb (is_class w) bases = true.
Proof. unfold type_new. destruct (forallb (is_class w) bases); [reflexivity|discriminate]. Qed.

(** The members of the linearisation of classes are classes, and the
    linearisation holds the mro of each of them. *)
Lemma lin_members w bases lin x :
  wf_world w -> forallb (is_class w) bases = true ->
  c3_merge (List.map (mro_list w) bases ++ [bases]) = Some lin ->
  x ∈ lin -> is_class w x = true /\ mro_list w x ⊆ lin.
Proof.
  intros Hw Hb Hlin Hx.
  assert (Hsub : forall b, b ∈ bases -> mro_list w b ⊆ lin).
  { intros b Hbin z Hz.
    apply (sublist_subseteq (mro_list w b)); [|exact Hz].
    eapply c3_merge_sublist; [exact Hlin|].
    apply in_or_app. left. apply in_map. now apply list_elem_of_In. }
  rewrite forallb_forall in Hb.
  destruct (c3_merge_fuel_members _ _ _ _ Hlin Hx) as (s & Hs & Hxs).
  apply in_app_or in Hs as [Hs|[<-|[]]].
  - apply in_map_iff in Hs as (b & <- & Hbin).
    destruct (wf_closed w b x Hw Hxs) as [Hc Hcl]. split; [exact Hc|].
    intros z Hz. apply (Hsub b); [now apply list_elem_of_In | now apply Hcl].
  - split; [apply Hb; now apply list_elem_of_In | now apply Hsub].
Qed.

Lemma wf_type_new name bases w :
  wf_world w -> wf_world (snd (type_new name bases w)).
Proof.
  intros Hw. destruct (type_new name bases w) as [[c|e] w'] eqn:E; cbn [snd].
  2:{ unfold type_new in E. destruct (forallb _ _).
      - destruct (c3_merge _); inversion E; now subst.
      - inversion E; now subst. }
  pose proof (type_new_bases _ _ _ _ _ E) as Hb.
  apply type_new_ok in E as (-> & lin & meta & Hlin & Hh & _).
  assert (Hp : heap w `prefix_of` heap w') by (rewrite Hh; now eexists).
  intros c ob Hl Hk. rewrite Hh in Hl.
  apply lookup_app_Some in Hl as [Hl|[Hge Hl]].
  - apply (wf_class_kept w w'); [exact Hp | now apply Hw].
  - destruct (c - length (heap w)) as [|k] eqn:Ek; [|destruct k; discriminate].
    assert (c = length (heap w)) by lia. subst c.
    inversion Hl; subst ob; clear Hl. unfold wf_class; cbn.
    assert (Hmem := fun x => lin_members w bases lin x Hw Hb Hlin).
    assert (Hnew : is_class w' (length (heap w)) = true).
    { apply is_class_lookup. eexists. split.
      - rewrite Hh, lookup_app_r by lia. rewrite Nat.sub_diag. reflexivity.
      - reflexivity. }
    assert (Hmro : mro_list w' (length (heap w)) = length (heap w) :: lin).
    { unfold mro_list, mro. rewrite Hh, lookup_app_r by lia. now rewrite Nat.sub_diag. }
    repeat split; try (eexists; reflexivity).
    + constructor; [|eapply c3_merge_fuel_nodup; exact Hlin].
      intros Hin. apply Hmem in Hin as [Hc _].
      apply is_class_lookup in Hc as (ob & Hc & _). apply lookup_lt_Some in Hc. lia.
    + constructor.
      * split; [exact Hnew|]. now rewrite Hmro.
      * apply Forall_forall. intros y Hy. destruct (Hmem y Hy) as [Hc Hs].
        destruct (class_kept w w' y Hp Hc) as [Hc' ->]. split; [exact Hc'|].
        intros z Hz. right. now apply Hs.
Qed.

Lemma wf_import_module name w :
  wf_world w -> wf_world (snd (import_module name w)).
Proof.
  intros Hw. eapply wf_same_heap; [|exact Hw].
  now destruct (import_module_calls name w) as [_ ->].
Qed.

Lemma wf_import_mixins ms w : wf_world w -> wf_world (snd (import_mixins ms w)).
Proof.
  apply (respects_import_mixins (fun a b => wf_world a -> wf_world b)); auto.
  - intros name w0. apply wf_import_module.
  - intros name bases w0. apply wf_type_new.
Qed.

Lemma wf_try_import self ensure w :
  wf_world w -> wf_world (snd (try_import self ensure w)).
Proof.
  apply (respects_try_import (fun a b => wf_world a -> wf_world b)); auto.
  - intros name w0. apply wf_import_module.
  - intros name bases w0. apply wf_type_new.
Qed.

End WellFormed.

(** ** The minimal mixins *)

Section Sorting.

Context {A : Type} (key : A -> nat).

Lemma insert_by_perm x l : insert_by key x l ≡ₚ x :: l.
Proof.
  induction l as [|y l IH]; simpl; [reflexivity|].
  destruct (key x <=? key y); [reflexivity|].
  rewrite IH. apply Permutation_swap.
Qed.

Lemma sorted_perm l : sorted key l ≡ₚ l.
Proof.
  induction l as [|x l IH]; simpl; [reflexivity|].
  now rewrite insert_by_perm, IH.
Qed.

Lemma insert_by_sorted x l :
  StronglySorted (fun a b => key a <= key b) l ->
  StronglySorted (fun a b => key a <= key b) (insert_by key x l).
Proof.
  induction 1 as [|y l Hs IH Hy]; simpl; [repeat constructor|].
  destruct (Nat.leb_spec (key x) (key y)) as [Hle|Hgt].
  - constructor; [now constructor|]. constructor; [exact Hle|].
    eapply Forall_impl; [exact Hy|]. simpl. intros z Hz. lia.
  - constructor; [exact IH|].
    rewrite (insert_by_perm x l). constructor; [lia | exact Hy].
Qed.

Lemma sorted_sorted l : StronglySorted (fun a b => key a <= key b) (sorted key l).
Proof.
  induction l as [|x l IH]; simpl; [constructor | now apply insert_by_sorted].
Qed.

Lemma sorted_rev (R : A -> A -> Prop) l :
  StronglySorted R l -> StronglySorted (fun a b => R b a) (rev l).
Proof.
  induction 1 as [|x l Hs IH Hx]; simpl; [constructor|].
  apply StronglySorted_app_2; [|exact IH|repeat constructor].
  intros a b Ha Hb. apply list_elem_of_singleton in Hb as ->.
  rewrite Forall_forall in Hx. apply Hx.
  now apply list_elem_of_In, in_rev, list_elem_of_In.
Qed.

End Sorting.

Section Minimal.

Lemma sorted_map {A B} (R : A -> A -> Prop) (R' : B -> B -> Prop) (f : A -> B) l :
  (forall x y, x ∈ l -> y ∈ l -> R x y -> R' (f x) (f y)) ->
  StronglySorted R l -> StronglySorted R' (List.map f l).
Proof.
  intros Hf Hs. induction Hs as [|x l Hs IH Hx]; simpl; constructor.
  - apply IH. intros a b Ha Hb. apply Hf; now right.
  - apply Forall_forall. intros b Hb.
    apply list_elem_of_In, in_map_iff in Hb as (a & <- & Ha).
    apply list_elem_of_In in Ha. apply Hf; [now left | now right |].
    eapply Forall_forall in Hx; [exact Hx | exact Ha].
Qed.

Lemma keyed_fst w types : List.map fst (keyed w types) = types.
Proof.
  unfold keyed. rewrite map_map. simpl. apply map_id.
Qed.

Lemma loop_order_perm w types : loop_order w types ≡ₚ types.
Proof.
  unfold loop_order. rewrite <- (keyed_fst w types) at 2.
  apply Permutation_map. rewrite <- Permutation_rev. apply sorted_perm.
Qed.

Lemma loop_order_descending w types : descending w (loop_order w types).
Proof.
  unfold descending, loop_order.
  apply (sorted_map (fun p q => snd q <= snd p)).
  - intros p q Hp Hq Hpq.
    assert (Hk : forall r, r ∈ rev (sorted snd (keyed w types)) ->
                           snd r = length (mro_list w (fst r))).
    { intros r Hr. apply list_elem_of_In, in_rev, list_elem_of_In in Hr.
      rewrite sorted_perm in Hr. unfold keyed in Hr.
      apply list_elem_of_In, in_map_iff in Hr as (x & <- & _). reflexivity. }
    now rewrite <- (Hk p Hp), <- (Hk q Hq).
  - apply sorted_rev, sorted_sorted.
Qed.

Lemma keyed_ok w types :
  Forall (fun x => is_class w x = true) types ->
  mapM (fun x => m ← reading (fun w => mro w x); ret (x, length m)) types w
  = (Ok (keyed w types), w).
Proof.
  induction 1 as [|x types Hx _ IH]; [reflexivity|].
  cbn [mapM keyed List.map]. unfold mbind, M_bind, bind, reading, ret in *.
  rewrite (mro_class w x Hx). cbn. unfold keyed in IH. now rewrite IH.
Qed.

(** In a well-formed heap, a class is among the ancestors found so far
    exactly when it is covered by one of the chosen. *)
Lemma found_covered w m chosen (found : gset oid) :
  wf_world w -> is_class w m = true ->
  (forall a, a ∈ found <-> exists s, s ∈ chosen /\ a ∈ mro_list w s) ->
  m ∈ found <-> covered w m chosen = true.
Proof.
  intros Hw Hm Hf. unfold covered. rewrite existsb_exists, Hf. split.
  - intros (s & Hs & Hms). exists s. split; [now apply list_elem_of_In|].
    apply forallb_forall. intros a Ha. apply oid_in_spec.
    apply (wf_closed w s m Hw Hms). now apply list_elem_of_In.
  - intros (s & Hs & Hall). exists s. split; [now apply list_elem_of_In|].
    rewrite forallb_forall in Hall. apply oid_in_spec, Hall, list_elem_of_In.
    now apply wf_self.
Qed.

Lemma minimal_loop_spec w order : forall (found : gset oid) chosen,
  wf_world w ->
  Forall (fun x => is_class w x = true) order ->
  (forall a, a ∈ found <-> exists s, s ∈ chosen /\ a ∈ mro_list w s) ->
  minimal_loop order found chosen w = (Ok (select_minimal w order chosen), w).
Proof.
  induction order as [|m order IH]; intros found chosen Hw Hc Hf; [reflexivity|].
  inversion Hc as [|? ? Hm Hc']; subst. cbn [minimal_loop select_minimal].
  pose proof (found_covered w m chosen found Hw Hm Hf) as Hiff.
  destruct (decide (m ∈ found)) as [Hin|Hnin].
  - apply Hiff in Hin. rewrite Hin. now apply IH.
  - destruct (covered w m chosen) eqn:E; [exfalso; apply Hnin, Hiff; reflexivity|].
    unfold mbind, M_bind, bind, reading. rewrite (mro_class w m Hm).
    apply IH; [exact Hw | exact Hc' |].
    intros a. rewrite elem_of_union, elem_of_list_to_set, Hf. split.
    + intros [(s & Hs & Ha)|Ha].
      * exists s. split; [apply elem_of_app; now left | exact Ha].
      * exists m. split; [apply elem_of_app; right; now left | exact Ha].
    + intros (s & Hs & Ha). apply elem_of_app in Hs as [Hs|Hs].
      * left. now exists s.
      * apply list_elem_of_singleton in Hs as ->. now right.
Qed.

Lemma select_minimal_members w order : forall chosen x,
  x ∈ select_minimal w order chosen -> x ∈ order \/ x ∈ chosen.
Proof.
  induction order as [|m order IH]; intros chosen x; simpl; [now right|].
  destruct (covered w m chosen); intros H; apply IH in H as [H|H].
  - left; now right.
  - now right.
  - left; now right.
  - apply elem_of_app in H as [H|H]; [now right|].
    apply list_elem_of_singleton in H as ->. left; now left.
Qed.

Lemma build_all w xs :
  wf_world w -> Forall (fun x => is_class w x = true) xs ->
  exists refs,
    mapM (fun x => reading (fun w => build w (VObj x))) xs w = (Ok refs, w) /\
    Forall2 (is_ref_of w) xs refs.
Proof.
  intros Hw. induction 1 as [|x xs Hx _ (refs & IH & Hrefs)].
  - exists []. split; [reflexivity | constructor].
  - destruct (wf_named w x Hw Hx) as (m & n & Hm & Hn).
    exists (Some (MkRef [m] [n] IMPORT_SEP "." [] (Some x)) :: refs). split.
    + cbn [mapM]. unfold mbind, M_bind, bind, reading, ret in *. rewrite IH.
      cbn [build]. now rewrite Hx, Hm, Hn.
    + constructor; [|exact Hrefs]. now exists m, n.
Qed.

End Minimal.

(** C7: the mixins are resolved to types, gone through in descending
    length of their mro; a mixin whose whole ancestor set is within the
    ancestor set of one chosen before it is skipped, the others are
    chosen; the chosen types are returned in reference form.  For two
    mixins [[b; c]] with the ancestors of [b] among those of [c] and not
    the other way round, [c] is kept and [b] dropped. *)
Theorem minimal_mixins_spec (self : JGDVCodeReference) (plugins : plugins_t)
    (w w1 : world) (types : list oid) :
  wf_world w ->
  import_mixins (_mixins self) w = (Ok types, w1) ->
  Forall (fun x => is_class w1 x = true) types ->
  exists order refs,
    order ≡ₚ types /\
    descending w1 order /\
    _calculate_minimal_mixins self plugins w = (Ok refs, w1) /\
    Forall2 (is_ref_of w1) (select_minimal w1 order []) refs /\
    (forall b c,
       types = [b; c] ->
       mro_list w1 b ⊆ mro_list w1 c -> ~ mro_list w1 c ⊆ mro_list w1 b ->
       select_minimal w1 order [] = [c]).
Proof.
  intros Hw Hm Hc.
  assert (Hw1 : wf_world w1).
  { pose proof (wf_import_mixins (_mixins self) w Hw) as H. now rewrite Hm in H. }
  assert (Horder : Forall (fun x => is_class w1 x = true) (loop_order w1 types)).
  { rewrite Forall_forall in *. intros x Hx. apply Hc.
    now rewrite <- (loop_order_perm w1 types). }
  assert (Hsel : Forall (fun x => is_class w1 x = true)
                        (select_minimal w1 (loop_order w1 types) [])).
  { rewrite Forall_forall in *. intros x Hx.
    apply select_minimal_members in Hx as [Hx|Hx]; [now apply Horder | inversion Hx]. }
  destruct (build_all w1 _ Hw1 Hsel) as (refs & Hb & Hrefs).
  exists (loop_order w1 types), refs.
  split; [apply loop_order_perm|]. split; [apply loop_order_descending|].
  split; [|split; [exact Hrefs|]].
  - unfold _calculate_minimal_mixins, mbind, M_bind, bind.
    unfold import_mixins in Hm. rewrite Hm.
    pose proof (keyed_ok w1 types Hc) as Hk.
    unfold mbind, M_bind, bind in Hk. rewrite Hk.
    fold (loop_order w1 types).
    rewrite (minimal_loop_spec w1 (loop_order w1 types) ∅ [] Hw1 Horder).
    + exact Hb.
    + intros a. split; [intros H; now apply not_elem_of_empty in H|].
      intros (s & Hs & _). inversion Hs.
  - intros b c -> Hbc Hcb.
    assert (Hle : length (mro_list w1 b) <= length (mro_list w1 c)).
    { apply List.NoDup_incl_length.
      - apply NoDup_ListNoDup, wf_nodup, Hw1.
      - intros x Hx. now apply list_elem_of_In, Hbc, list_elem_of_In. }
    unfold loop_order, keyed. cbn [List.map sorted insert_by snd].
    apply Nat.leb_le in Hle. rewrite Hle. cbn [rev app List.map fst select_minimal].
    unfold covered at 1. cbn [existsb app].
    unfold covered. cbn [existsb].
    replace (forallb (fun a => oid_in a (mro_list w1 c)) (mro_list w1 b)) with true;
      [reflexivity|].
    symmetry. apply forallb_forall. intros a Ha.
    now apply oid_in_spec, Hbc, list_elem_of_In.
Qed.

Lemma demo_wf : wf_world Demo.w0.
Proof.
  intros c ob H Hk.
  do 10 (destruct c as [|c];
         [inversion H; subst; clear H; try discriminate Hk;
          unfold wf_class;
          match goal with
          | |- ?P => apply (@bool_decide_unpack P _)
          end; vm_compute; exact I |]).
  inversion H.
Defined.

Lemma minimal_mixins_spec_witness :
  let self := new_ref (ArgList ["pkg"; "mod"]) (ArgList ["Target"])
                      [Demo.m1; Demo.m2] None in
  let w1 := snd (import_mixins [Demo.m1; Demo.m2] Demo.w0) in
  exists order refs,
    order ≡ₚ [4; 5] /\
    descending w1 order /\
    _calculate_minimal_mixins self ∅ Demo.w0 = (Ok refs, w1) /\
    Forall2 (is_ref_of w1) (select_minimal w1 order []) refs /\
    (forall b c,
       [4; 5] = [b; c] ->
       mro_list w1 b ⊆ mro_list w1 c -> ~ mro_list w1 c ⊆ mro_list w1 b ->
       select_minimal w1 order [] = [c]).
Proof.
  intros self w1.
  apply (minimal_mixins_spec self ∅ Demo.w0 w1 [4; 5]).
  - exact demo_wf.
  - vm_compute. reflexivity.
  - repeat constructor.
Defined.

(** The same run, evaluated: of the mixins [[M1; M2]], with [M2] a
    subclass of [M1], only [M2] is kept. *)
Example minimal_mixins_example :
  let self := new_ref (ArgList ["pkg"; "mod"]) (ArgList ["Target"])
                      [Demo.m1; Demo.m2] None in
  fst (_calculate_minimal_mixins self ∅ Demo.w0)
  = Ok [Some (MkRef ["pkg.mod"] ["M2"] ":" "." [] (Some 5))].
Proof. vm_compute. reflexivity. Qed.

(** ** Side facts on the model *)

Section Adequacy.

Lemma total_len_filter seqs : total_len (List.filter nonempty seqs) = total_len seqs.
Proof.
  unfold total_len. induction seqs as [|s seqs IH]; [reflexivity|].
  destruct s; simpl in *; [exact IH | now rewrite IH].
Qed.

Lemma total_len_drop_le h seqs :
  total_len (List.map (drop_head h) seqs) <= total_len seqs.
Proof.
  unfold total_len. induction seqs as [|s seqs IH]; simpl; [lia|].
  destruct s as [|x t]; simpl; [lia|]. destruct (Nat.eqb x h); simpl; lia.
Qed.

Lemma total_len_drop_lt h t seqs :
  In (h :: t) seqs -> total_len (List.map (drop_head h) seqs) < total_len seqs.
Proof.
  induction seqs as [|s seqs IH]; simpl; [tauto|]. intros [->|Hin].
  - pose proof (total_len_drop_le h seqs). unfold total_len in *. simpl.
    rewrite Nat.eqb_refl. lia.
  - specialize (IH Hin). pose proof (total_len_drop_le h [s]).
    unfold total_len in *. simpl in *. lia.
Qed.

(** The fuel of [c3_merge] never runs out: more fuel gives the same
    linearisation, and [None] is the absence of a candidate. *)
Lemma c3_merge_fuel_enough n : forall seqs f1 f2,
  total_len seqs <= n -> n <= f1 -> n <= f2 ->
  c3_merge_fuel f1 seqs = c3_merge_fuel f2 seqs.
Proof.
  induction n as [|n IH]; intros seqs f1 f2 Hn H1 H2.
  - assert (List.filter nonempty seqs = []) as E.
    { pose proof (total_len_filter seqs) as Hf.
      destruct (List.filter nonempty seqs) as [|s F] eqn:E; [reflexivity|].
      assert (In s (List.filter nonempty seqs)) as Hs by (rewrite E; now left).
      apply List.filter_In in Hs as [_ Hs]. destruct s; [discriminate|].
      unfold total_len in *. simpl in Hf. lia. }
    destruct f1, f2; simpl; now rewrite E.
  - destruct (List.filter nonempty seqs) as [|s0 F] eqn:E.
    + destruct f1, f2; simpl; now rewrite E.
    + destruct f1 as [|f1]; [lia|]. destruct f2 as [|f2]; [lia|].
      simpl. rewrite E.
      destruct (c3_candidate (s0 :: F) (s0 :: F)) as [h|] eqn:Ec; [|reflexivity].
      f_equal. apply IH; try lia.
      destruct (c3_candidate_spec _ _ _ Ec) as ((t & Ht) & _).
      pose proof (total_len_drop_lt h t (s0 :: F) Ht).
      pose proof (total_len_filter seqs). rewrite E in *. lia.
Qed.

Lemma c3_merge_more_fuel seqs fuel :
  total_len seqs <= fuel -> c3_merge_fuel fuel seqs = c3_merge seqs.
Proof.
  intros H. unfold c3_merge. now apply (c3_merge_fuel_enough (total_len seqs)).
Qed.

(** [build] on a string or on a type does not fall through: the [None]
    met in [mixin_ref] is not reached. *)
Lemma build_no_fall_through w mix :
  (exists s, mix = VStr s) \/ (exists o, mix = VObj o /\ is_class w o = true) ->
  build w mix <> Ok None.
Proof.
  intros [[s ->]|(o & -> & Hc)]; simpl.
  - destruct (_from_str s); discriminate.
  - rewrite Hc. destruct (get_module w o); [|discriminate].
    destruct (get_name w o); discriminate.
Qed.

(** [to_aliases] at the group ["mixins"]. *)
Lemma to_aliases_mixins_group self plugins :
  to_aliases self "mixins" plugins = to_aliases_of_mixin self plugins.
Proof. reflexivity. Qed.

End Adequacy.

(** The two groups side by side: [to_aliases] finds the alias of a mixin
    in the group ["mixins"], and [add_mixins] does not find it there. *)
Example mixins_group_example :
  let plugins : plugins_t :=
    {[ "task" := []; "mixins" := [MkPlugin "plural" "pkg.mod:M1"] ]} in
  let self := new_ref (ArgList ["pkg"; "mod"]) (ArgList ["Target"]) [Demo.m1] None in
  fst (to_aliases self "task" plugins Demo.w0) = Ok ("pkg.mod:Target", ["plural"]) /\
  mixin_ref Demo.w0 (Some plugins) (VStr "plural")
  = Ok (MkRef [] ["plural"] ":" "." [] None).
Proof. vm_compute. split; reflexivity. Qed.

(** * Further properties of the resolver *)

(** ** Construction from a string: when it succeeds *)

Section FromStrAccepts.
Import PyStrFacts.

Lemma split_three sep s :
  2 <= PyStr.count sep s ->
  match PyStr.split sep s with
  | [_; _] => False
  | _ => True
  end.
Proof.
  intros H. pose proof (split_length sep s) as Hl.
  destruct (PyStr.split sep s) as [|a [|b [|c l]]]; simpl in *; try exact I. lia.
Qed.

Lemma count_0_no_colon name : PyStr.count ":" name = 0 -> PyStr.contains ":" name = false.
Proof. apply (contains_char_count ":"%char). Qed.

(** A string with the token ["::"] has two colons at least. *)
Lemma task_sep_two_colons name :
  PyStr.contains TASK_SEP name = true -> 2 <= PyStr.count ":" name.
Proof.
  unfold TASK_SEP. induction name as [|a s IH]; [simpl; discriminate|].
  cbn [PyStr.contains PyStr.count]. intros H. apply orb_true_iff in H as [H|H].
  - cbn [String.prefix] in H.
    destruct (ascii_dec ":" a) as [<-|]; [|discriminate].
    destruct s as [|b s]; [discriminate|]. cbn [String.prefix] in H.
    destruct (ascii_dec ":" b) as [<-|]; [|discriminate]. simpl. lia.
  - specialize (IH H). destruct (Ascii.eqb a ":"); lia.
Qed.

End FromStrAccepts.

(** X1: [_from_str] returns a reference exactly for the strings that have
    at most one colon; every other string is refused. *)
Theorem from_str_accepts_iff (name : string) :
  (exists r, _from_str name = Ok r) <-> PyStr.count ":" name <= 1.
Proof.
  split.
  - intros [r H]. unfold _from_str in H.
    destruct (PyStr.contains TASK_SEP name) eqn:Et; [discriminate|].
    destruct (PyStr.contains ":" name) eqn:Ec.
    + destruct (le_lt_dec (PyStr.count ":" name) 1) as [Hle|Hgt]; [exact Hle|].
      pose proof (split_three ":"%char name Hgt) as H3.
      destruct (PyStr.split ":" name) as [|a [|b [|c l]]]; try discriminate.
      contradiction.
    + apply (PyStrFacts.contains_char_count ":"%char) in Ec. lia.
  - intros Hle.
    assert (Ht : PyStr.contains TASK_SEP name = false).
    { destruct (PyStr.contains TASK_SEP name) eqn:E; [|reflexivity].
      apply task_sep_two_colons in E. lia. }
    unfold _from_str. rewrite Ht.
    destruct (PyStr.count ":" name) as [|[|n]] eqn:Ec; [| |lia].
    + rewrite (count_0_no_colon name Ec). eexists; reflexivity.
    + rewrite contains_colon by (rewrite Ec; discriminate).
      destruct (split_two ":"%char name Ec) as (a & b & -> & _). eexists; reflexivity.
Qed.

(** ** Resolution reads the heap only *)

Section HeapOnly.

Variables w w' : world.
Hypothesis same : heap w' = heap w.

Lemma is_class_same o : is_class w' o = is_class w o.
Proof using same. unfold is_class. now rewrite same. Qed.

Lemma mro_same o : mro w' o = mro w o.
Proof using same. unfold mro. now rewrite same. Qed.

Lemma mro_list_same o : mro_list w' o = mro_list w o.
Proof using same. unfold mro_list. now rewrite mro_same. Qed.



Lemma isinstance_same o cls : isinstance w' o cls = isinstance w o cls.
Proof using same.
  unfold isinstance. rewrite is_class_same, same.
  destruct (is_class w cls); [|reflexivity].
  destruct (heap w !! o); [|reflexivity]. now rewrite mro_list_same.
Qed.

Lemma issubclass_same o cls : issubclass w' o cls = issubclass w o cls.
Proof using same.
  unfold issubclass. now rewrite !is_class_same, mro_list_same.
Qed.


Lemma check_ensure_same self ensure curr :
  check_ensure self ensure curr w' = (fst (check_ensure self ensure curr w), w').
Proof using same.
  unfold check_ensure. destruct ensure as [e|]; [|reflexivity].
  unfold mbind, M_bind, bind, reading, ret, raise.
  rewrite isinstance_same.
  destruct (isinstance w curr e) as [[|]|]; try reflexivity.
  rewrite issubclass_same.
  destruct (issubclass w curr e) as [[|]|]; reflexivity.
Qed.

End HeapOnly.

Section Stable.


Lemma check_ensure_state self ensure curr w :
  snd (check_ensure self ensure curr w) = w.
Proof. now rewrite (check_ensure_same w w eq_refl self ensure curr). Qed.



End Stable.




(** X4: no [ModuleNotFoundError] and no [AttributeError] leaves
    [try_import]: the two [except] clauses turn each into an
    [ImportError]. *)
Theorem try_import_never_raises_lookup_errors (self : JGDVCodeReference)
    (ensure : option oid) (w : world) :
  (forall n, fst (try_import self ensure w) <> Raise (ModuleNotFoundError n)) /\
  (forall o a, fst (try_import self ensure w) <> Raise (AttributeError o a)).
Proof.
  rewrite try_import_eq. unfold try_except.
  match goal with |- context [match ?b w with _ => _ end] => destruct (b w) as [[c|e] w1] end.
  - split; intros; discriminate.
  - destruct e; split; intros; discriminate.
Qed.

Section Propagation.

Lemma import_handler_passes self e w :
  passes_through e -> import_handler self e w = (Raise e, w).
Proof. destruct e; simpl; intros H; try reflexivity; contradiction. Qed.

Lemma try_import_raises self ensure w e w' :
  try_import self ensure w = (Raise e, w') -> passes_through e.
Proof.
  rewrite try_import_eq. unfold try_except.
  match goal with |- context [match ?b w with _ => _ end] => destruct (b w) as [[c|e0] w1] end.
  - discriminate.
  - destruct e0; intros H; inversion H; subst; exact I.
Qed.

Lemma mapM_raise {A B} (f : A -> M B) pre x post w bs w1 e w2 :
  mapM f pre w = (Ok bs, w1) -> f x w1 = (Raise e, w2) ->
  mapM f (pre ++ x :: post) w = (Raise e, w2).
Proof.
  revert w bs. induction pre as [|a pre IH]; intros w bs Hpre Hx.
  - inversion Hpre; subst. cbn [app mapM]. unfold mbind, M_bind, bind. now rewrite Hx.
  - cbn [app mapM] in *. unfold mbind, M_bind, bind in *.
    destruct (f a w) as [[b|e0] wa]; [|discriminate].
    destruct (mapM f pre wa) as [[bs'|e0] wb] eqn:E; [|discriminate].
    inversion Hpre; subst. now rewrite (IH wa bs' E Hx).
Qed.

(** [type()] on classes that can be linearised. *)
Lemma type_new_run name bases lin w :
  forallb (is_class w) bases = true ->
  c3_merge (List.map (mro_list w) bases ++ [bases]) = Some lin ->
  exists meta,
    type_new name bases w
    = (Ok (length (heap w)),
       MkWorld (heap w ++ [MkObj KClass (Some name) (Some THIS_MODULE) ∅ bases
                                 (length (heap w) :: lin) meta])
               (finder w) (sys_modules w) (executed w) (import_calls w)).
Proof. intros Hc Hl. unfold type_new. rewrite Hc, Hl. eexists. reflexivity. Qed.

End Propagation.

(** X5: when the resolution of a mixin fails, [try_import] of the
    reference fails with the error of the mixin, unchanged (it carries the
    reference of the mixin, not the one resolved), in the state that
    failure left; the mixins after it are not resolved. *)
Theorem try_import_mixin_failure (self : JGDVCodeReference) (ensure : option oid)
    (w w1 w2 w3 : world) (t : oid) (pre post : list JGDVCodeReference)
    (m : JGDVCodeReference) (ts : list oid) (e : exn) :
  resolve_target self w = (Ok t, w1) ->
  _mixins self = pre ++ m :: post ->
  import_mixins pre w1 = (Ok ts, w2) ->
  try_import m None w2 = (Raise e, w3) ->
  try_import self ensure w = (Raise e, w3).
Proof.
  intros Ht Hm Hpre He.
  pose proof (try_import_raises _ _ _ _ _ He) as Hp.
  rewrite try_import_eq. unfold try_except, mbind, M_bind, bind. rewrite Ht.
  unfold compose, mbind, M_bind, bind. rewrite Hm.
  destruct (pre ++ m :: post) as [|x l] eqn:E; [now destruct pre|].
  rewrite <- E. unfold import_mixins in *.
  rewrite (mapM_raise _ pre m post w1 ts w2 e w3 Hpre He).
  now apply import_handler_passes.
Qed.

Lemma try_import_mixin_failure_witness :
  let gone := new_ref (ArgList ["pkg"; "gone"]) (ArgList ["Mixin"]) [] None in
  let self := new_ref (ArgList ["pkg"; "mod"]) (ArgList ["Target"])
                      [Demo.m1; gone; Demo.m3] None in
  fst (try_import self None Demo.w0)
  = Raise (ImportError "Module can't be found" [VStr "pkg.gone:Mixin"]).
Proof.
  intros gone self.
  rewrite (try_import_mixin_failure self None Demo.w0
             (snd (resolve_target self Demo.w0))
             (snd (import_mixins [Demo.m1] (snd (resolve_target self Demo.w0))))
             (snd (try_import gone None
                     (snd (import_mixins [Demo.m1] (snd (resolve_target self Demo.w0))))))
             3 [Demo.m1] [Demo.m3] gone [4]
             (ImportError "Module can't be found" [VStr "pkg.gone:Mixin"])).
  - reflexivity.
  - vm_compute. reflexivity.
  - reflexivity.
  - vm_compute. reflexivity.
  - vm_compute. reflexivity.
Defined.

(** X6: a composite type passes the check against its own target and
    against each of its mixins: with [ensure] one of the bases,
    [try_import] of a reference with mixins returns the composite. *)
Theorem try_import_composite_ensure (self : JGDVCodeReference) (w w1 w2 : world)
    (t e : oid) (ms : list oid) (n : string) (lin : list oid) :
  _mixins self <> [] ->
  resolve_target self w = (Ok t, w1) ->
  import_mixins (_mixins self) w1 = (Ok ms, w2) ->
  get_name w2 t = Ok n ->
  forallb (is_class w2) (ms ++ [t]) = true ->
  c3_merge (List.map (mro_list w2) (ms ++ [t]) ++ [ms ++ [t]]) = Some lin ->
  e ∈ ms ++ [t] ->
  exists w3,
    try_import self (Some e) w = (Ok (length (heap w2)), w3) /\
    issubclass w3 (length (heap w2)) e = Ok true.
Proof.
  intros Hne Ht Hm Hn Hc Hlin He.
  destruct (type_new_run ("DootGenerated:" +:+ n) _ lin w2 Hc Hlin) as [meta Hnew].
  set (c := length (heap w2)) in *.
  match type of Hnew with _ = (_, ?x) => set (w3 := x) in * end.
  assert (Hp : heap w2 `prefix_of` heap w3) by (now eexists).
  assert (Hce : is_class w3 e = true).
  { rewrite forallb_forall in Hc. apply (class_kept w2 w3 e Hp).
    now apply Hc, list_elem_of_In. }
  assert (Hlc : heap w3 !! c = Some (MkObj KClass (Some ("DootGenerated:" +:+ n))
                                       (Some THIS_MODULE) ∅ (ms ++ [t]) (c :: lin) meta)).
  { cbn [w3 heap]. rewrite lookup_app_r by (unfold c; lia).
    unfold c. now rewrite Nat.sub_diag. }
  assert (Hsub : issubclass w3 c e = Ok true).
  { unfold issubclass. rewrite Hce.
    assert (is_class w3 c = true) as -> by (apply is_class_lookup; eexists; eauto).
    rewrite (mro_list_class w3 c _ Hlc eq_refl). f_equal.
    apply oid_in_spec. right.
    apply (sublist_subseteq (ms ++ [t])); [|exact He].
    eapply c3_merge_sublist; [exact Hlin|]. apply in_or_app. right. now left. }
  exists w3. split; [|exact Hsub].
  apply try_import_ok. exists t, w1. split; [exact Ht|]. split.
  - apply compose_ok; [exact Hne|]. exists ms, w2, n. now repeat split.
  - unfold check_ensure, mbind, M_bind, bind, reading, ret. cbv beta.
    assert (Hi : exists b, isinstance w3 c e = Ok b).
    { unfold isinstance. rewrite Hce.
      match goal with
      | |- context [match ?x with Some _ => _ | None => _ end] => destruct x
      end; eexists; reflexivity. }
    destruct Hi as [[|] ->]; [reflexivity|]. now rewrite Hsub.
Qed.

Lemma try_import_composite_ensure_witness :
  let self := new_ref (ArgList ["pkg"; "mod"]) (ArgList ["Target"])
                      [Demo.m1; Demo.m3] None in
  let w1 := snd (resolve_target self Demo.w0) in
  let w2 := snd (import_mixins (_mixins self) w1) in
  exists w3,
    try_import self (Some 9) Demo.w0 = (Ok (length (heap w2)), w3) /\
    issubclass w3 (length (heap w2)) 9 = Ok true.
Proof.
  intros self w1 w2.
  apply (try_import_composite_ensure self Demo.w0 w1 w2 3 9 [4; 9] "Target"
           [4; 9; 3; 0]).
  - discriminate.
  - vm_compute. reflexivity.
  - vm_compute. reflexivity.
  - vm_compute. reflexivity.
  - vm_compute. reflexivity.
  - vm_compute. reflexivity.
  - set_solver.
Defined.

(** X7: a reference built from a live class renders as
    [<module>:<name>] of the class and resolves to that class in any
    state, with no import and no change of the state. *)
Theorem build_type_resolves (w : world) (o : oid) (m n : string) :
  is_class w o = true ->
  get_module w o = Ok m ->
  get_name w o = Ok n ->
  exists r,
    build w (VObj o) = Ok (Some r) /\
    str r = m +:+ ":" +:+ n /\
    _mixins r = [] /\
    forall ensure w',
      try_import r None w' = (Ok o, w') /\ snd (try_import r ensure w') = w'.
Proof.
  intros Hc Hm Hn. eexists. split; [|split; [|split]].
  - cbn [build]. rewrite Hc, Hm, Hn. reflexivity.
  - reflexivity.
  - reflexivity.
  - intros ensure w'. now apply cached_plain.
Qed.

Lemma build_type_resolves_witness :
  exists r,
    build Demo.w0 (VObj 5) = Ok (Some r) /\
    str r = "pkg.mod" +:+ ":" +:+ "M2" /\
    _mixins r = [] /\
    forall ensure w',
      try_import r None w' = (Ok 5, w') /\ snd (try_import r ensure w') = w'.
Proof.
  apply (build_type_resolves Demo.w0 5 "pkg.mod" "M2"); reflexivity.
Defined.

(** ** More on adding mixins *)

Section AddMixinsMore.

Lemma add_loop_app w plugins l1 l2 to_add : forall st : mixin_store,
  add_loop w plugins (l1 ++ l2) to_add st
  = match add_loop w plugins l1 to_add st with
    | (Ok _, st1) => add_loop w plugins l2 to_add st1
    | (Raise e, st1) => (Raise e, st1)
    end.
Proof.
  induction l1 as [|m l1 IH]; intros st; [reflexivity|].
  cbn [app add_loop]. destruct (mixin_ref w plugins m); [apply IH|reflexivity].
Qed.

End AddMixinsMore.

(** X8: when a supplied mixin is refused (a value that is no reference,
    string or type, or a string that does not parse), [add_mixins] raises
    that error and returns no instance; the mixin list of the instance it
    was called on is what it was, the mixins accepted before the bad one
    having gone to the copy only. *)
Theorem add_mixins_failure w plugins (r : instance) good refs bad rest e
    (st : mixin_store) :
  i_mixins r < length st ->
  Forall2 (fun m x => mixin_ref w plugins m = Ok x) good refs ->
  mixin_ref w plugins bad = Raise e ->
  exists st',
    add_mixins r (good ++ bad :: rest) plugins w st = (Raise e, st') /\
    (forall l, l < length st -> st' !! l = st !! l) /\
    snapshot st' r = snapshot st r.
Proof.
  intros Hlt Hgood Hbad. unfold add_mixins, list_copy.
  rewrite add_loop_app, (add_loop_ok _ _ _ _ _ Hgood) by (rewrite length_app; simpl; lia).
  cbn [add_loop]. rewrite Hbad, list_at_end, insert_at_end.
  eexists. split; [reflexivity|]. split.
  - intros l Hl. now rewrite lookup_app_l.
  - unfold snapshot. now rewrite list_at_old.
Qed.

Lemma add_mixins_failure_witness :
  let r := MkInstance ["pkg"; "mod"] ["Target"] ":" "." 0 None in
  exists st',
    add_mixins r ([VRef Demo.m3] ++ VStr "a::b" :: [VRef Demo.m2]) None Demo.w0
               [[Demo.m1]]
    = (Raise (DootError "Code References should use a single colon, not double"), st') /\
    (forall l, l < length [[Demo.m1]] -> st' !! l = [[Demo.m1]] !! l) /\
    snapshot st' r = snapshot [[Demo.m1]] r.
Proof.
  intros r.
  apply (add_mixins_failure Demo.w0 None r [VRef Demo.m3] [Demo.m3] (VStr "a::b")
           [VRef Demo.m2]).
  - simpl; lia.
  - constructor; [reflexivity | constructor].
  - reflexivity.
Defined.

(** X9: the instance [add_mixins] returns has the head, the tail and the
    [_type] of the one it was called on, but the default separators: it
    renders as the dot-joined paths around [IMPORT_SEP], and it is equal
    by value to the original when the original has the default
    separators. *)
Theorem add_mixins_keeps_value w plugins (r : instance) mixins refs
    (st : mixin_store) :
  Forall2 (fun m x => mixin_ref w plugins m = Ok x) mixins refs ->
  exists r' st',
    add_mixins r mixins plugins w st = (Ok r', st') /\
    _type (snapshot st' r') = i_type r /\
    str (snapshot st' r')
    = PyStr.join "." (i_head r) +:+ IMPORT_SEP +:+ PyStr.join "." (i_tail r) /\
    (i_separator r = IMPORT_SEP -> i_subseparator r = "." ->
     ref_eqb (snapshot st' r') (snapshot st r) = true).
Proof.
  intros H. eexists _, _. split; [apply (add_mixins_ok _ _ _ _ _ _ H)|].
  split; [reflexivity|]. split; [reflexivity|].
  intros Hs Hss. unfold ref_eqb, str, module, value, snapshot.
  cbn [head tail separator subseparator i_head i_tail i_separator i_subseparator].
  rewrite Hs, Hss. apply String.eqb_refl.
Qed.

Lemma add_mixins_keeps_value_witness :
  let r := MkInstance ["pkg"; "mod"] ["Target"] ":" "." 0 (Some 3) in
  exists r' st',
    add_mixins r [VRef Demo.m3] None Demo.w0 [[Demo.m1]] = (Ok r', st') /\
    _type (snapshot st' r') = i_type r /\
    str (snapshot st' r')
    = PyStr.join "." (i_head r) +:+ IMPORT_SEP +:+ PyStr.join "." (i_tail r) /\
    (i_separator r = IMPORT_SEP -> i_subseparator r = "." ->
     ref_eqb (snapshot st' r') (snapshot [[Demo.m1]] r) = true).
Proof.
  intros r.
  apply (add_mixins_keeps_value Demo.w0 None r [VRef Demo.m3] [Demo.m3] [[Demo.m1]]).
  constructor; [reflexivity | constructor].
Defined.

(** A separator that is not the default is not carried over. *)
Example add_mixins_drops_separator :
  let r := MkInstance ["pkg"; "mod"] ["Target"] "::" "." 0 None in
  exists r' st',
    add_mixins r [] None Demo.w0 [[]] = (Ok r', st') /\
    str (snapshot [[]] r) = "pkg.mod::Target" /\
    str (snapshot st' r') = "pkg.mod:Target".
Proof. eexists _, _. split; [reflexivity|]. split; reflexivity. Qed.

(** ** Aliases, there and back *)

Section AliasRoundTrip.

Lemma from_str_one_colon name :
  PyStr.count ":" name = 1 ->
  exists a b,
    name = a +:+ ":" +:+ b /\
    _from_str name
    = Ok (new_ref (ArgList (PyStr.split "." a)) (ArgList (PyStr.split "." b)) [] None).
Proof.
  intros Hc. destruct (split_two ":"%char name Hc) as (a & b & Hs & Hn & _).
  exists a, b. split; [exact Hn|].
  assert (Ht : PyStr.contains TASK_SEP name = false).
  { destruct (PyStr.contains TASK_SEP name) eqn:E; [|reflexivity].
    apply task_sep_two_colons in E. lia. }
  unfold _from_str. now rewrite Ht, contains_colon, Hs by (rewrite Hc; discriminate).
Qed.

Lemma filter_first_valued before x after v :
  Forall (fun y => pl_value y <> v) before -> pl_value x = v ->
  exists rest, filter (fun y => pl_value y = v) (before ++ x :: after) = x :: rest.
Proof.
  intros Hb Hx. rewrite filter_app, filter_cons.
  destruct (decide (pl_value x = v)); [|contradiction].
  assert (filter (fun y => pl_value y = v) before = []) as ->; [|eexists; reflexivity].
  induction Hb as [|y l Hy _ IH]; [reflexivity|].
  rewrite filter_cons. now destruct (decide (pl_value y = v)).
Qed.

End AliasRoundTrip.

(** X10: the alias of a record goes to a reference and back.  If the first
    record of the group named [a] has the value [v], a string with one
    colon, and no record before it has that value, then [from_alias] gives
    a reference that renders as [v], and [to_aliases] gives back [a] for
    it, with no mixin and the state left as it was. *)
Theorem alias_round_trip (plugins : plugins_t) (group a v : string)
    (before after : list plugin) (w : world) :
  plugins !! group = Some (before ++ MkPlugin a v :: after) ->
  Forall (fun x => pl_name x <> a) before ->
  Forall (fun x => pl_value x <> v) before ->
  PyStr.count ":" v = 1 ->
  exists r,
    from_alias a group plugins = Ok r /\
    str r = v /\
    to_aliases r group plugins w = (Ok (a, []), w).
Proof.
  intros Hg Hn Hv Hc.
  destruct (from_str_one_colon v Hc) as (x & y & Hxy & Hr).
  eexists. split; [|split].
  - unfold from_alias. rewrite Hg.
    destruct (filter_first_named before (MkPlugin a v) after a Hn eq_refl) as [rest ->].
    exact Hr.
  - rewrite str_new_ref_lists. now symmetry.
  - unfold to_aliases, mbind, M_bind, bind, reading, ret.
    unfold base_alias, plugins_get. rewrite Hg. cbn [mbind result_bind rbind].
    rewrite str_new_ref_lists, <- Hxy.
    destruct (filter_first_valued before (MkPlugin a v) after v Hv eq_refl) as [rest ->].
    cbn [pl_name]. destruct (decide (group <> "mixins")); reflexivity.
Qed.

Lemma alias_round_trip_witness :
  let plugins : plugins_t :=
    {[ "task" := [MkPlugin "other" "x.y:Z"; MkPlugin "short" "pkg.mod:Target";
                  MkPlugin "again" "pkg.mod:Target"] ]} in
  exists r,
    from_alias "short" "task" plugins = Ok r /\
    str r = "pkg.mod:Target" /\
    to_aliases r "task" plugins Demo.w0 = (Ok ("short", []), Demo.w0).
Proof.
  intros plugins.
  apply (alias_round_trip plugins "task" "short" "pkg.mod:Target"
           [MkPlugin "other" "x.y:Z"] [MkPlugin "again" "pkg.mod:Target"] Demo.w0).
  - reflexivity.
  - constructor; [discriminate | constructor].
  - constructor; [discriminate | constructor].
  - reflexivity.
Defined.

(** ** What the minimal mixins are *)

Section MinimalSet.

Variable w : world.
Hypothesis Hw : wf_world w.

Lemma covered_spec m chosen :
  covered w m chosen = true <->
  exists s, s ∈ chosen /\ mro_list w m ⊆ mro_list w s.
Proof using Type.
  unfold covered. rewrite existsb_exists. split.
  - intros (s & Hs & Hall). exists s. split; [now apply list_elem_of_In|].
    rewrite forallb_forall in Hall. intros a Ha.
    now apply oid_in_spec, Hall, list_elem_of_In.
  - intros (s & Hs & Hsub). exists s. split; [now apply list_elem_of_In|].
    apply forallb_forall. intros a Ha. now apply oid_in_spec, Hsub, list_elem_of_In.
Qed.

Lemma select_minimal_prefix order : forall chosen,
  chosen `prefix_of` select_minimal w order chosen.
Proof using Type.
  induction order as [|m order IH]; intros chosen; simpl; [reflexivity|].
  destruct (covered w m chosen); [apply IH|].
  transitivity (chosen ++ [m]); [now apply prefix_app_r | apply IH].
Qed.

Lemma select_minimal_covers order : forall chosen t,
  Forall (fun x => is_class w x = true) order ->
  t ∈ order ->
  exists c, c ∈ select_minimal w order chosen /\ t ∈ mro_list w c.
Proof using Hw.
  induction order as [|m order IH]; intros chosen t Hc Ht; [inversion Ht|].
  inversion Hc as [|? ? Hm Hc']; subst. cbn [select_minimal].
  apply elem_of_cons in Ht as [->|Ht].
  - destruct (covered w m chosen) eqn:E.
    + apply covered_spec in E as (s & Hs & Hsub). exists s. split.
      * destruct (select_minimal_prefix order chosen) as [k ->].
        apply elem_of_app. now left.
      * apply Hsub. now apply wf_self.
    + exists m. split; [|now apply wf_self].
      destruct (select_minimal_prefix order (chosen ++ [m])) as [k ->].
      apply elem_of_app. left. apply elem_of_app. right. now left.
  - destruct (covered w m chosen); now apply IH.
Qed.

Lemma select_minimal_apart order : forall chosen,
  Forall (fun x => is_class w x = true) order ->
  descending w order ->
  Forall (fun x => is_class w x = true) chosen ->
  (forall s m, s ∈ chosen -> m ∈ order ->
               length (mro_list w m) <= length (mro_list w s)) ->
  apart w chosen ->
  apart w (select_minimal w order chosen).
Proof using Hw.
  induction order as [|m order IH]; intros chosen Hc Hd Hch Hlen Hap; [exact Hap|].
  inversion Hc as [|? ? Hm Hc']; subst.
  apply StronglySorted_inv in Hd as [Hd Hrest]. cbn [select_minimal].
  destruct (covered w m chosen) eqn:E.
  - apply IH; try assumption. intros s m' Hs Hm'. apply Hlen; [exact Hs | now right].
  - assert (Hnot : forall s, s ∈ chosen -> ~ mro_list w m ⊆ mro_list w s).
    { intros s Hs Hsub.
      assert (covered w m chosen = true) by (apply covered_spec; now exists s).
      congruence. }
    apply IH; try assumption.
    + apply Forall_app. split; [exact Hch | now constructor].
    + intros s m' Hs Hm'. apply elem_of_app in Hs as [Hs|Hs].
      * apply Hlen; [exact Hs | now right].
      * apply list_elem_of_singleton in Hs as ->.
        rewrite Forall_forall in Hrest. now apply Hrest.
    + destruct Hap as [Hnd Hanti]. split.
      * apply NoDup_app. split; [exact Hnd|]. split; [|apply NoDup_singleton].
        intros x Hx Hxm. apply list_elem_of_singleton in Hxm as ->.
        now apply (Hnot m Hx).
      * intros a b Ha Hb Hab.
        apply elem_of_app in Ha as [Ha|Ha]; apply elem_of_app in Hb as [Hb|Hb].
        -- now apply Hanti.
        -- apply list_elem_of_singleton in Hb as ->. exfalso.
           apply (Hnot a Ha).
           destruct (wf_closed w m a Hw Hab) as [_ Hsub].
           intros z Hz. apply list_elem_of_In.
           apply (@List.NoDup_length_incl _ (mro_list w a) (mro_list w m)).
           ++ apply NoDup_ListNoDup, wf_nodup, Hw.
           ++ apply Hlen; [exact Ha | now left].
           ++ intros y Hy. now apply list_elem_of_In, Hsub, list_elem_of_In.
           ++ now apply list_elem_of_In.
        -- apply list_elem_of_singleton in Ha as ->. exfalso.
           apply (Hnot b Hb). now apply (wf_closed w b m Hw Hab).
        -- apply list_elem_of_singleton in Ha as ->.
           now apply list_elem_of_singleton in Hb as ->.
Qed.

End MinimalSet.

Section MinimalRun.

Lemma bind_run_ok {A B} (m : M A) (f : A -> M B) w a w1 :
  m w = (Ok a, w1) -> bind m f w = f a w1.
Proof. intros H. unfold bind. now rewrite H. Qed.

Lemma bind_run_raise {A B} (m : M A) (f : A -> M B) w e w1 :
  m w = (Raise e, w1) -> bind m f w = (Raise e, w1).
Proof. intros H. unfold bind. now rewrite H. Qed.

Lemma mro_not_class w x : is_class w x = false -> mro w x = Raise (AttributeError x "mro").
Proof.
  unfold is_class, mro. destruct (heap w !! x) as [ob|]; [|reflexivity].
  destruct (ob_kind ob); try reflexivity. discriminate.
Qed.

(** The run of [_calculate_minimal_mixins] on mixins that resolve to
    classes. *)
Lemma calculate_minimal_run self plugins w w1 types :
  wf_world w ->
  import_mixins (_mixins self) w = (Ok types, w1) ->
  Forall (fun x => is_class w1 x = true) types ->
  wf_world w1 /\
  Forall (fun x => is_class w1 x = true) (loop_order w1 types) /\
  exists refs,
    _calculate_minimal_mixins self plugins w = (Ok refs, w1) /\
    Forall2 (is_ref_of w1) (select_minimal w1 (loop_order w1 types) []) refs.
Proof.
  intros Hw Hm Hc.
  assert (Hw1 : wf_world w1).
  { pose proof (wf_import_mixins (_mixins self) w Hw) as H. now rewrite Hm in H. }
  assert (Horder : Forall (fun x => is_class w1 x = true) (loop_order w1 types)).
  { rewrite Forall_forall in *. intros x Hx. apply Hc.
    now rewrite <- (loop_order_perm w1 types). }
  assert (Hsel : Forall (fun x => is_class w1 x = true)
                        (select_minimal w1 (loop_order w1 types) [])).
  { rewrite Forall_forall in *. intros x Hx.
    apply select_minimal_members in Hx as [Hx|Hx]; [now apply Horder | inversion Hx]. }
  destruct (build_all w1 _ Hw1 Hsel) as (refs & Hb & Hrefs).
  split; [exact Hw1|]. split; [exact Horder|]. exists refs. split; [|exact Hrefs].
  unfold _calculate_minimal_mixins, mbind, M_bind, bind.
  unfold import_mixins in Hm. rewrite Hm.
  pose proof (keyed_ok w1 types Hc) as Hk.
  unfold mbind, M_bind, bind in Hk. rewrite Hk.
  fold (loop_order w1 types).
  rewrite (minimal_loop_spec w1 (loop_order w1 types) ∅ [] Hw1 Horder); [exact Hb|].
  intros a. split; [intros H; now apply not_elem_of_empty in H|].
  intros (s & Hs & _). inversion Hs.
Qed.

End MinimalRun.

(** X11: the minimal mixins are a reduced cover of the mixins.  The types
    [_calculate_minimal_mixins] returns (in reference form) are among the
    resolved mixins, without repetition; none of them is an ancestor of
    another; and every resolved mixin is one of them or an ancestor of one
    of them. *)
Theorem minimal_mixins_cover (self : JGDVCodeReference) (plugins : plugins_t)
    (w w1 : world) (types : list oid) :
  wf_world w ->
  import_mixins (_mixins self) w = (Ok types, w1) ->
  Forall (fun x => is_class w1 x = true) types ->
  exists chosen refs,
    _calculate_minimal_mixins self plugins w = (Ok refs, w1) /\
    Forall2 (is_ref_of w1) chosen refs /\
    NoDup chosen /\
    chosen ⊆ types /\
    (forall a b, a ∈ chosen -> b ∈ chosen -> a ∈ mro_list w1 b -> a = b) /\
    (forall t, t ∈ types -> exists c, c ∈ chosen /\ t ∈ mro_list w1 c).
Proof.
  intros Hw Hm Hc.
  destruct (calculate_minimal_run self plugins w w1 types Hw Hm Hc)
    as (Hw1 & Horder & refs & Hrun & Hrefs).
  exists (select_minimal w1 (loop_order w1 types) []), refs.
  split; [exact Hrun|]. split; [exact Hrefs|].
  assert (Hap : apart w1 (select_minimal w1 (loop_order w1 types) [])).
  { apply select_minimal_apart; try assumption.
    - apply loop_order_descending.
    - constructor.
    - intros s m Hs. inversion Hs.
    - split; [constructor|]. intros a b Ha. inversion Ha. }
  destruct Hap as [Hnd Hanti]. split; [exact Hnd|]. split; [|split; [exact Hanti|]].
  - intros x Hx. apply select_minimal_members in Hx as [Hx|Hx]; [|inversion Hx].
    now rewrite <- (loop_order_perm w1 types).
  - intros t Ht. apply select_minimal_covers; try assumption.
    now rewrite (loop_order_perm w1 types).
Qed.

Lemma minimal_mixins_cover_witness :
  let self := new_ref (ArgList ["pkg"; "mod"]) (ArgList ["Target"])
                      [Demo.m1; Demo.m3; Demo.m2; Demo.m3] None in
  let w1 := snd (import_mixins (_mixins self) Demo.w0) in
  exists chosen refs,
    _calculate_minimal_mixins self ∅ Demo.w0 = (Ok refs, w1) /\
    Forall2 (is_ref_of w1) chosen refs /\
    NoDup chosen /\
    chosen ⊆ [4; 9; 5; 9] /\
    (forall a b, a ∈ chosen -> b ∈ chosen -> a ∈ mro_list w1 b -> a = b) /\
    (forall t, t ∈ [4; 9; 5; 9] -> exists c, c ∈ chosen /\ t ∈ mro_list w1 c).
Proof.
  intros self w1.
  apply (minimal_mixins_cover self ∅ Demo.w0 w1 [4; 9; 5; 9]).
  - exact demo_wf.
  - vm_compute. reflexivity.
  - repeat constructor.
Defined.

(** The same run, evaluated: [M2] first (the longest mro), then one
    [M3]; [M1], an ancestor of [M2], and the second [M3] are left out. *)
Example minimal_mixins_cover_example :
  let self := new_ref (ArgList ["pkg"; "mod"]) (ArgList ["Target"])
                      [Demo.m1; Demo.m3; Demo.m2; Demo.m3] None in
  fst (_calculate_minimal_mixins self ∅ Demo.w0)
  = Ok [Some (MkRef ["pkg.mod"] ["M2"] ":" "." [] (Some 5));
        Some (MkRef ["pkg.mod"] ["M3"] ":" "." [] (Some 9))].
Proof. vm_compute. reflexivity. Qed.

(** X12: a mixin that resolves to an object that is no class (a function)
    makes [_calculate_minimal_mixins] fail with [AttributeError]: the
    object has no [mro], and the call is outside any [try]. *)
Theorem minimal_mixins_not_a_class (self : JGDVCodeReference) (plugins : plugins_t)
    (w w1 : world) (pre post : list oid) (x : oid) :
  import_mixins (_mixins self) w = (Ok (pre ++ x :: post), w1) ->
  Forall (fun y => is_class w1 y = true) pre ->
  is_class w1 x = false ->
  _calculate_minimal_mixins self plugins w = (Raise (AttributeError x "mro"), w1).
Proof.
  intros Hm Hpre Hx.
  unfold _calculate_minimal_mixins, mbind, M_bind.
  unfold import_mixins in Hm. rewrite (bind_run_ok _ _ _ _ _ Hm).
  pose proof (keyed_ok w1 pre Hpre) as Hk. unfold mbind, M_bind in Hk.
  apply bind_run_raise.
  apply (mapM_raise _ pre x post w1 _ w1 (AttributeError x "mro") w1 Hk).
  unfold bind, reading. now rewrite (mro_not_class w1 x Hx).
Qed.

Lemma minimal_mixins_not_a_class_witness :
  let self := new_ref (ArgList ["pkg"; "mod"]) (ArgList ["Target"])
                      [Demo.m1; Demo.helper] None in
  _calculate_minimal_mixins self ∅ Demo.w0
  = (Raise (AttributeError 6 "mro"), snd (import_mixins (_mixins self) Demo.w0)).
Proof.
  intros self.
  apply (minimal_mixins_not_a_class self ∅ Demo.w0
           (snd (import_mixins (_mixins self) Demo.w0)) [4] [] 6).
  - vm_compute. reflexivity.
  - repeat constructor.
  - reflexivity.
Defined.

(** ** The aliases of a reference and of its mixins *)

Section ToAliases.

Lemma mbind_run_ok {A B} (m : M A) (f : A -> M B) w a w1 :
  m w = (Ok a, w1) -> (m ≫= f) w = f a w1.
Proof. apply bind_run_ok. Qed.

Lemma base_alias_present self group (plugins : plugins_t) recs :
  plugins !! group = Some recs ->
  base_alias self group plugins = Ok (alias_or_literal recs (str self)).
Proof.
  intros H. unfold base_alias, plugins_get, alias_or_literal. rewrite H.
  cbn [mbind result_bind rbind].
  now destruct (filter (fun x => pl_value x = str self) recs).
Qed.

Lemma mixin_aliases_run (plugins : plugins_t) mrecs w chosen refs :
  plugins !! "mixins" = Some mrecs ->
  Forall2 (is_ref_of w) chosen refs ->
  exists aliases,
    mapM (fun x : option JGDVCodeReference =>
            match x with
            | Some r => p ← to_aliases_of_mixin r plugins; ret (fst p)
            | None => raise (AttributeError 0 "to_aliases")
            end) refs w = (Ok aliases, w) /\
    Forall2 (fun x a => exists m n,
               get_module w x = Ok m /\ get_name w x = Ok n /\
               a = alias_or_literal mrecs (m +:+ ":" +:+ n)) chosen aliases.
Proof.
  intros Hg. induction 1 as [|x r chosen refs (m & n & Hm & Hn & ->) _ (al & IH & Hal)].
  - exists []. split; [reflexivity | constructor].
  - exists (alias_or_literal mrecs (m +:+ ":" +:+ n) :: al). split.
    + cbn [mapM].
      rewrite (mbind_run_ok _ _ w (alias_or_literal mrecs (m +:+ ":" +:+ n)) w).
      * now rewrite (mbind_run_ok _ _ w al w IH).
      * unfold to_aliases_of_mixin.
        rewrite (mbind_run_ok _ _ w
                   (alias_or_literal mrecs (m +:+ ":" +:+ n), []) w); [reflexivity|].
        rewrite (mbind_run_ok _ _ w (alias_or_literal mrecs (m +:+ ":" +:+ n)) w);
          [reflexivity|].
        unfold reading. now rewrite (base_alias_present _ _ _ _ Hg).
    + constructor; [|exact Hal]. now exists m, n.
Qed.

End ToAliases.

(** X13: for a group other than ["mixins"], [to_aliases] returns the
    alias of the reference in that group (or its rendered form) and, for
    each minimal mixin in turn, the alias that the group ["mixins"] has for
    [<module>:<name>] of its type (or that string); the state is the one
    the resolution of the mixins left. *)
Theorem to_aliases_with_mixins (self : JGDVCodeReference) (plugins : plugins_t)
    (group : string) (w w1 : world) (types : list oid) (recs mrecs : list plugin) :
  wf_world w ->
  import_mixins (_mixins self) w = (Ok types, w1) ->
  Forall (fun x => is_class w1 x = true) types ->
  group <> "mixins" ->
  plugins !! group = Some recs ->
  plugins !! "mixins" = Some mrecs ->
  exists aliases,
    to_aliases self group plugins w
    = (Ok (alias_or_literal recs (str self), aliases), w1) /\
    Forall2 (fun x a => exists m n,
               get_module w1 x = Ok m /\ get_name w1 x = Ok n /\
               a = alias_or_literal mrecs (m +:+ ":" +:+ n))
            (select_minimal w1 (loop_order w1 types) []) aliases.
Proof.
  intros Hw Hm Hc Hne Hg Hmg.
  destruct (calculate_minimal_run self plugins w w1 types Hw Hm Hc)
    as (_ & _ & refs & Hrun & Hrefs).
  destruct (mixin_aliases_run plugins mrecs w1 _ refs Hmg Hrefs) as (aliases & Hal & Hall).
  exists aliases. split; [|exact Hall].
  unfold to_aliases.
  rewrite (mbind_run_ok _ _ w (alias_or_literal recs (str self)) w).
  2:{ unfold reading. now rewrite (base_alias_present _ _ _ _ Hg). }
  destruct (decide (group <> "mixins")); [|contradiction].
  rewrite (mbind_run_ok _ _ w aliases w1); [reflexivity|].
  now rewrite (mbind_run_ok _ _ _ _ _ Hrun).
Qed.

Lemma to_aliases_with_mixins_witness :
  let plugins : plugins_t :=
    {[ "task" := [MkPlugin "main" "pkg.mod:Target"];
       "mixins" := [MkPlugin "second" "pkg.mod:M2"] ]} in
  let self := new_ref (ArgList ["pkg"; "mod"]) (ArgList ["Target"])
                      [Demo.m1; Demo.m3; Demo.m2] None in
  let w1 := snd (import_mixins (_mixins self) Demo.w0) in
  exists aliases,
    to_aliases self "task" plugins Demo.w0
    = (Ok (alias_or_literal [MkPlugin "main" "pkg.mod:Target"] (str self), aliases), w1) /\
    Forall2 (fun x a => exists m n,
               get_module w1 x = Ok m /\ get_name w1 x = Ok n /\
               a = alias_or_literal [MkPlugin "second" "pkg.mod:M2"] (m +:+ ":" +:+ n))
            (select_minimal w1 (loop_order w1 [4; 9; 5]) []) aliases.
Proof.
  intros plugins self w1.
  apply (to_aliases_with_mixins self plugins "task" Demo.w0 w1 [4; 9; 5]).
  - exact demo_wf.
  - vm_compute. reflexivity.
  - repeat constructor.
  - discriminate.
  - reflexivity.
  - reflexivity.
Defined.

(** The same run, evaluated. *)
Example to_aliases_with_mixins_example :
  let plugins : plugins_t :=
    {[ "task" := [MkPlugin "main" "pkg.mod:Target"];
       "mixins" := [MkPlugin "second" "pkg.mod:M2"] ]} in
  let self := new_ref (ArgList ["pkg"; "mod"]) (ArgList ["Target"])
                      [Demo.m1; Demo.m3; Demo.m2] None in
  fst (to_aliases self "task" plugins Demo.w0) = Ok ("main", ["second"; "pkg.mod:M3"]).
Proof. vm_compute. reflexivity. Qed.
